(** * DailyArXiV: the listing parser and the LaTeX-like text normalizer

    A shallow embedding of [src/DailyArXiV.py]: the text normalizer
    ([_MATH_RE], [_tex_replacements], [_apply_tex_outside_math],
    [normalize_tex_like]), the listing parser ([parse_list]) and the
    bucketing loop of [main], followed by the properties the specification
    states about them.

    Python strings are sequences of Unicode code points: a [str] is a list
    of code points, each an [N]. *)

From Stdlib Require Import NArith String Ascii List Bool Lia.
From Stdlib Require DecimalString.
From stdpp Require Import gmap list.

#[local] Set Warnings "-register-all".
Local Open Scope nat_scope.
Local Open Scope list_scope.

(** ** Python strings *)

Abbreviation str := (list N).

(** A literal of the source: every character of the literals written this
    way is ASCII, so its code point is its byte. *)
Definition py (s : string) : str := map N_of_ascii (list_ascii_of_string s).

Definition EM_DASH : N := 8212.      (* U+2014 *)
Definition EN_DASH : N := 8211.      (* U+2013 *)
Definition LDQUO : N := 8220.        (* U+201C *)
Definition RDQUO : N := 8221.        (* U+201D *)
Definition THIN_SPACE : N := 8201.   (* U+2009 *)
Definition MEDIUM_SPACE : N := 8197. (* U+2005 *)
Definition NBSP : N := 160.          (* U+00A0 *)

(** [str.isspace] on one code point, which is also what [\s] matches in a
    pattern over [str]: U+0009..U+000D, U+001C..U+0020, U+0085, U+00A0,
    U+1680, U+2000..U+200A, U+2028, U+2029, U+202F, U+205F, U+3000. *)
Definition isspace (c : N) : bool :=
  ((9 <=? c) && (c <=? 13) || (28 <=? c) && (c <=? 32) || (c =? 133)
   || (c =? 160) || (c =? 5760) || (8192 <=? c) && (c <=? 8202)
   || (c =? 8232) || (c =? 8233) || (c =? 8239) || (c =? 8287)
   || (c =? 12288))%N.

(** [s.startswith(p)] *)
Fixpoint startswith (p s : str) : bool :=
  match p, s with
  | [], _ => true
  | _ :: _, [] => false
  | a :: p', b :: s' => (a =? b)%N && startswith p' s'
  end.

(** [s[a:b]] for [0 <= a] and [0 <= b]: empty when [b <= a], cut at the end
    of the string. [s[a:]] is [drop a s]. *)
Definition slice (s : str) (a b : nat) : str := take (b - a) (drop a s).

(** The longest prefix of [s] whose characters all satisfy [f]. *)
Fixpoint span_while (f : N -> bool) (s : str) : str :=
  match s with
  | c :: t => if f c then c :: span_while f t else []
  | [] => []
  end.

(** ** The regular expressions of the normalizer *)

(** [_MATH_RE] is an alternation of four delimited groups, compiled with
    [re.DOTALL]:
      \(.+?\)   \[.+?\]   $$.*?$$   $.*?$
    Each alternative is an opening literal, a lazy run of arbitrary
    characters (at least one for [.+?], possibly none for [.*?]) and a closing
    literal. *)
Inductive delim := Paren | Bracket | DDollar | Dollar.

Definition opener (d : delim) : str :=
  match d with
  | Paren => py "\("
  | Bracket => py "\["
  | DDollar => py "$$"
  | Dollar => py "$"
  end.

Definition closer (d : delim) : str :=
  match d with
  | Paren => py "\)"
  | Bracket => py "\]"
  | DDollar => py "$$"
  | Dollar => py "$"
  end.

(** The least number of characters between the delimiters: 1 for [.+?],
    0 for [.*?]. *)
Definition min_inner (d : delim) : nat :=
  match d with
  | Paren | Bracket => 1
  | DDollar | Dollar => 0
  end.

Definition _MATH_RE : list delim := [Paren; Bracket; DDollar; Dollar].

(** A lazy run followed by the literal [close]: the run takes as few
    characters as possible, so it stops at the first place where [close]
    occurs. The result is the length of the run. *)
Fixpoint find_lazy (close : str) (s : str) : option nat :=
  if startswith close s then Some 0
  else match s with
       | [] => None
       | _ :: t => option_map S (find_lazy close t)
       end.

(** One alternative tried at the head of [s]: the length of its match. *)
Definition match_alt (d : delim) (s : str) : option nat :=
  if startswith (opener d) s then
    match find_lazy (closer d) (drop (min_inner d) (drop (length (opener d)) s)) with
    | Some k => Some (length (opener d) + min_inner d + k + length (closer d))
    | None => None
    end
  else None.

(** The alternatives are tried in the order of the pattern; the first one
    that matches at this position wins. *)
Fixpoint first_alt (alts : list delim) (s : str) : option nat :=
  match alts with
  | [] => None
  | d :: ds =>
      match match_alt d s with
      | Some n => Some n
      | None => first_alt ds s
      end
  end.

Definition math_match (s : str) : option nat := first_alt _MATH_RE s.

(** [_MATH_RE.finditer(s)]: the matches [(m.start(), m.end())] of one scan
    from left to right. [pos] is the position of the head of [s] in the
    whole string; [skip] counts the characters of the current match that
    the scan still has to step over (a match is never empty, so the scan
    resumes at its end). *)
Fixpoint finditer_from (pos skip : nat) (s : str) : list (nat * nat) :=
  match s with
  | [] => []
  | _ :: t =>
      match skip with
      | S k => finditer_from (S pos) k t
      | O =>
          match math_match s with
          | Some n => (pos, pos + n) :: finditer_from (S pos) (pred n) t
          | None => finditer_from (S pos) 0 t
          end
      end
  end.

Definition finditer (s : str) : list (nat * nat) := finditer_from 0 0 s.

(** The patterns of [_tex_replacements]: eleven are literals, one is a
    literal followed by [\s*]. *)
Inductive pattern :=
| Literal (p : str)
| LiteralSpaces (p : str).

(** The length of the match of a pattern at the head of [s]; [\s*] is
    greedy and nothing follows it, so it takes the whole run of spaces. *)
Definition pat_match (pat : pattern) (s : str) : option nat :=
  match pat with
  | Literal p => if startswith p s then Some (length p) else None
  | LiteralSpaces p =>
      if startswith p s
      then Some (length p + length (span_while isspace (drop (length p) s)))
      else None
  end.

(** [pat.sub(repl, s)]: every match of a scan from left to right is replaced
    by [repl]; [skip] as in [finditer_from]. No pattern of the table matches
    the empty string. *)
Fixpoint sub_from (pat : pattern) (repl : str) (skip : nat) (s : str) : str :=
  match s with
  | [] => []
  | c :: t =>
      match skip with
      | S k => sub_from pat repl k t
      | O =>
          match pat_match pat s with
          | Some n => repl ++ sub_from pat repl (pred n) t
          | None => c :: sub_from pat repl 0 t
          end
      end
  end.

Definition sub (pat : pattern) (repl : str) (s : str) : str :=
  sub_from pat repl 0 s.

Definition _tex_replacements : list (pattern * str) :=
  [ (Literal (py "---"), [EM_DASH]);
    (Literal (py "--"), [EN_DASH]);
    (Literal (py "``"), [LDQUO]);
    (Literal (py "''"), [RDQUO]);
    (LiteralSpaces (py "\,"), [THIN_SPACE]);
    (Literal (py "\;"), [MEDIUM_SPACE]);
    (Literal (py "\:"), [MEDIUM_SPACE]);
    (Literal (py "\!"), []);
    (Literal (py "~"), [NBSP]);
    (Literal (py "\-"), []);
    (Literal (py "\/"), []);
    (Literal (py "\&"), py "&") ].

(** ** The normalizer *)

(** The inner loop [for pat, repl in _tex_replacements: chunk = pat.sub(repl, chunk)]. *)
Definition apply_replacements (chunk : str) : str :=
  fold_left (fun chunk pr => sub (fst pr) (snd pr) chunk) _tex_replacements chunk.

(** The loop over the matches, with its two variables [out] and [pos]. *)
Fixpoint for_matches (s : str) (ms : list (nat * nat)) (out : list str) (pos : nat)
  : list str * nat :=
  match ms with
  | [] => (out, pos)
  | (m_start, m_end) :: ms' =>
      let out1 :=
        if pos <? m_start
        then out ++ [apply_replacements (slice s pos m_start)]
        else out in
      for_matches s ms' (out1 ++ [slice s m_start m_end]) m_end
  end.

Definition _apply_tex_outside_math (s : str) : str :=
  let '(out, pos) := for_matches s (finditer s) [] 0 in
  let out :=
    if pos <? length s
    then out ++ [apply_replacements (drop pos s)]
    else out in
  concat out.

Definition normalize_tex_like (s : str) : str :=
  match s with
  | [] => s
  | _ => _apply_tex_outside_math s
  end.

(** ** The parsed document

    [BeautifulSoup(html, "html.parser")] turns the markup into a tree. The
    tree is the input of this model: a tag has a name (in lower case, as
    the parser stores it), its attribute dictionary [attrs], the list that
    [attrs] holds under the key [class] (the parser splits that attribute
    on whitespace) and its contents; the text between tags is in
    [NavigableString] nodes, comments are nodes of their own. *)
Inductive node :=
| NavigableString (text : str)
| Comment (text : str)
| Tag (name : str) (attrs : gmap str str) (classes : list str) (contents : list node).

(** Every node below [n] with its parent, in document order. *)
Fixpoint descendants_with_parent (n : node) : list (node * node) :=
  match n with
  | Tag _ _ _ cs => flat_map (fun c => (n, c) :: descendants_with_parent c) cs
  | _ => []
  end.

Definition descendants (n : node) : list node :=
  map snd (descendants_with_parent n).

Definition is_tag (nm : str) (n : node) : bool :=
  match n with
  | Tag name _ _ _ => bool_decide (name = nm)
  | _ => false
  end.

(** [tag.get(key)] *)
Definition get (n : node) (key : str) : option str :=
  match n with
  | Tag _ attrs _ _ => attrs !! key
  | _ => None
  end.

Definition has_class (c : str) (n : node) : bool :=
  match n with
  | Tag _ _ classes _ => bool_decide (c ∈ classes)
  | _ => false
  end.

(** The selectors of the source. [select] returns the matching descendants
    in document order, [select_one] the first of them. *)

(** [dl#articles > child]: a [child] tag whose parent is a [dl] tag with
    the id [articles]. *)
Definition select_articles_child (child : str) (soup : node) : list node :=
  map snd
    (List.filter
       (fun pc => is_tag (py "dl") (fst pc)
                  && bool_decide (get (fst pc) (py "id") = Some (py "articles"))
                  && is_tag child (snd pc))
       (descendants_with_parent soup)).

(** [a[href^="/abs/"]] *)
Definition is_abs_link (n : node) : bool :=
  is_tag (py "a") n
  && match get n (py "href") with
     | Some href => startswith (py "/abs/") href
     | None => false
     end.

Definition select_one (sel : node -> bool) (n : node) : option node :=
  List.find sel (descendants n).

(** [.list-title], [p.mathjax] and [.list-subjects] *)
Definition is_list_title (n : node) : bool := has_class (py "list-title") n.
Definition is_p_mathjax (n : node) : bool := is_tag (py "p") n && has_class (py "mathjax") n.
Definition is_list_subjects (n : node) : bool := has_class (py "list-subjects") n.

(** [s.strip()] *)
Fixpoint lstrip (s : str) : str :=
  match s with
  | c :: t => if isspace c then lstrip t else s
  | [] => []
  end.

Definition rstrip (s : str) : str := rev (lstrip (rev s)).
Definition strip (s : str) : str := rstrip (lstrip s).

(** [sep.join(l)] *)
Fixpoint join (sep : str) (l : list str) : str :=
  match l with
  | [] => []
  | [x] => x
  | x :: rest => x ++ sep ++ join sep rest
  end.

(** [tag.get_text(separator, strip)]: the strings below the tag (comments
    are left out), each stripped when [strip] is set and then dropped when
    empty, joined by the separator. *)
Definition _all_strings (strip_ : bool) (n : node) : list str :=
  flat_map
    (fun d =>
       match d with
       | NavigableString t =>
           if strip_
           then match strip t with [] => [] | t' => [t'] end
           else [t]
       | _ => []
       end)
    (descendants n).

Definition get_text (separator : str) (strip_ : bool) (n : node) : str :=
  join separator (_all_strings strip_ n).

(** [s.replace(old, new, 1)] for a non-empty [old]: the first occurrence. *)
Fixpoint replace_first (old new s : str) : str :=
  if startswith old s then new ++ drop (length old) s
  else match s with
       | [] => []
       | c :: t => c :: replace_first old new t
       end.

(** ** The regular expressions of the parser *)

(** The character class [[A-Za-z0-9.\-]]. *)
Definition is_code_char (c : N) : bool :=
  ((65 <=? c) && (c <=? 90) || (97 <=? c) && (c <=? 122)
   || (48 <=? c) && (c <=? 57) || (c =? 46) || (c =? 45))%N.

Definition LPAREN : N := 40.
Definition RPAREN : N := 41.

(** The pattern [\(([A-Za-z0-9.\-]+)\)] at the head of [s]: group 1 of the
    match. The class is greedy; a shorter run is followed by a character
    of the class, never by the closing parenthesis, so backtracking finds
    nothing more. The whole match is two characters longer than the
    group. *)
Definition code_match (s : str) : option str :=
  match s with
  | c :: t =>
      if (c =? LPAREN)%N then
        match span_while is_code_char t with
        | [] => None
        | tok => if startswith [RPAREN] (drop (length tok) t) then Some tok else None
        end
      else None
  | [] => None
  end.

(** [re.findall] of that pattern: group 1 of every match of a scan from
    left to right; [skip] as in [finditer_from]. *)
Fixpoint findall_codes_from (skip : nat) (s : str) : list str :=
  match s with
  | [] => []
  | _ :: t =>
      match skip with
      | S k => findall_codes_from k t
      | O =>
          match code_match s with
          | Some tok => tok :: findall_codes_from (S (length tok)) t
          | None => findall_codes_from 0 t
          end
      end
  end.

Definition findall_codes (s : str) : list str := findall_codes_from 0 s.

Definition BASE : str := py "https://arxiv.org".

(** An entry, the dictionary that [parse_list] builds. *)
Record Entry := mkEntry {
  id : str;
  title : str;
  abstract : str;
  abs_url : str;
  codes : gset str
}.

(** Exceptions and the results of code that can raise. *)
Inductive exception := KeyError (key : str).

Inductive result (A : Type) :=
| Ok (a : A)
| Raise (e : exception).
Arguments Ok {A} a.
Arguments Raise {A} e.

Definition bind {A B : Type} (m : result A) (k : A -> result B) : result B :=
  match m with
  | Ok a => k a
  | Raise e => Raise e
  end.

Notation "'let!' x := m 'in' k" := (bind m (fun x => k))
  (at level 10, x name, m at level 200, k at level 200).

(** [tag[key]] *)
Definition getitem (n : node) (key : str) : result str :=
  match get n key with
  | Some v => Ok v
  | None => Raise (KeyError key)
  end.

Section Parser.

(** What [\d] matches in a pattern over [str]: the decimal digits of
    Unicode, a table of the interpreter. *)
Variable isdecimal : N -> bool.

(** [(?:v\d+)?] at the head of [s], greedy: the text it matches. *)
Definition version_suffix (s : str) : str :=
  match s with
  | c :: t =>
      if (c =? 118)%N then
        match span_while isdecimal t with
        | [] => []
        | ds => c :: ds
        end
      else []
  | [] => []
  end.

(** The pattern [/abs/(\d{4}\.\d{5}(?:v\d+)?)] at the head of [s]:
    group 1 of the match. *)
Definition id_match (s : str) : option str :=
  if startswith (py "/abs/") s then
    let r := drop 5 s in
    let d4 := take 4 r in
    let d5 := take 5 (drop 5 r) in
    if (length d4 =? 4) && forallb isdecimal d4
       && startswith (py ".") (drop 4 r)
       && (length d5 =? 5) && forallb isdecimal d5
    then Some (take 10 r ++ version_suffix (drop 10 r))
    else None
  else None.

(** [re.search] of that pattern: the leftmost match. *)
Fixpoint search_id (s : str) : option str :=
  match id_match s with
  | Some g => Some g
  | None =>
      match s with
      | [] => None
      | _ :: t => search_id t
      end
  end.

(** The title of a body block (the lines under [# Title]). *)
Definition extract_title (dd : node) : str :=
  match select_one is_list_title dd with
  | Some t_el => strip (replace_first (py "Title:") [] (get_text (py " ") true t_el))
  | None => []
  end.

(** The abstract (the lines under [# Abstract]). *)
Definition extract_abstract (dd : node) : str :=
  let abstract :=
    match select_one is_p_mathjax dd with
    | Some p => get_text (py " ") true p
    | None => []
    end in
  if startswith (py "Abstract:") abstract
  then strip (drop (length (py "Abstract:")) abstract)
  else abstract.

(** The flattened text of the subjects element and the codes in it. *)
Definition subjects_text (dd : node) : str :=
  match select_one is_list_subjects dd with
  | Some subj_el => get_text (py " ") true subj_el
  | None => []
  end.

Definition extract_codes (dd : node) : gset str :=
  list_to_set (findall_codes (subjects_text dd)).

(** The body of the loop of [parse_list] for one pair: [None] where the
    source runs [continue], the appended entry otherwise. *)
Definition parse_pair (dt dd : node) : result (option Entry) :=
  match select_one is_abs_link dt with
  | None => Ok None
  | Some a =>
      match search_id (default [] (get a (py "href"))) with
      | None => Ok None
      | Some arxid =>
          let! href := getitem a (py "href") in
          let abs_url := BASE ++ href in
          let title := extract_title dd in
          let abstract := extract_abstract dd in
          let codes := extract_codes dd in
          let title := normalize_tex_like title in
          let abstract := normalize_tex_like abstract in
          Ok (Some {| id := arxid; title := title; abstract := abstract;
                      abs_url := abs_url; codes := codes |})
      end
  end.

(** The loop [for dt, dd in zip(dts, dds)] with its variable [entries]. *)
Fixpoint for_pairs (pairs : list (node * node)) (entries : list Entry)
  : result (list Entry) :=
  match pairs with
  | [] => Ok entries
  | (dt, dd) :: rest =>
      let! r := parse_pair dt dd in
      for_pairs rest (match r with
                      | Some e => entries ++ [e]
                      | None => entries
                      end)
  end.

Definition parse_list (soup : node) : result (list Entry) :=
  let dts := select_articles_child (py "dt") soup in
  let dds := select_articles_child (py "dd") soup in
  for_pairs (zip dts dds) [].

End Parser.

(** ** The bucketing loop of [main] *)

Fixpoint bucket (astro_entries : list Entry) (pri_ga pri_im main_rest : list Entry)
  : list Entry * list Entry * list Entry :=
  match astro_entries with
  | [] => (pri_ga, pri_im, main_rest)
  | e :: es =>
      if bool_decide (py "astro-ph.GA" ∈ codes e)
      then bucket es (pri_ga ++ [e]) pri_im main_rest
      else if bool_decide (py "astro-ph.IM" ∈ codes e)
           then bucket es pri_ga (pri_im ++ [e]) main_rest
           else bucket es pri_ga pri_im (main_rest ++ [e])
  end.

Definition classify (astro_entries : list Entry) : list Entry * list Entry * list Entry :=
  bucket astro_entries [] [] [].

(** ** Spans: the partition of the input that the specification speaks of *)

(** A span of the input: plain text, or a protected (math) region. *)
Inductive span :=
| Plain (t : str)
| Math (t : str).

(** The text of a span in the input. *)
Definition raw (sp : span) : str :=
  match sp with
  | Plain t => t
  | Math t => t
  end.

(** The text of a span in the output, for a rewriting of plain text. *)
Definition emit (rewrite : str -> str) (sp : span) : str :=
  match sp with
  | Plain t => rewrite t
  | Math t => t
  end.

(** The spans that a list of matches cuts out of [s], from [pos] on: the
    plain text before each match (possibly empty), the match, and the plain
    text after the last one. *)
Fixpoint spans_from (s : str) (pos : nat) (ms : list (nat * nat)) : list span :=
  match ms with
  | [] => [Plain (drop pos s)]
  | (m_start, m_end) :: ms' =>
      Plain (slice s pos m_start) :: Math (slice s m_start m_end)
        :: spans_from s m_end ms'
  end.

Definition spans (s : str) : list span := spans_from s 0 (finditer s).

(** [p in s] *)
Fixpoint contains (p s : str) : bool :=
  startswith p s
  || match s with
     | [] => false
     | _ :: t => contains p t
     end.

(** A text delimited by the pair [d], the closing delimiter being the first
    one that can close it. *)
Definition delimited (d : delim) (t : str) : Prop :=
  exists inner : str,
    t = opener d ++ inner ++ closer d
    /\ min_inner d <= length inner
    /\ forall j, min_inner d <= j < length inner ->
                 startswith (closer d) (drop j (inner ++ closer d)) = false.

Definition protected_region (t : str) : Prop := exists d, delimited d t.

(** What one scan from left to right finds in [s] from [pos] on: no match
    starts before the first one found, the next is sought from its end. *)
Inductive Scan (s : str) : nat -> list (nat * nat) -> Prop :=
| Scan_end pos :
    (forall i, pos <= i -> math_match (drop i s) = None) ->
    Scan s pos []
| Scan_match pos st n ms :
    pos <= st ->
    (forall i, pos <= i < st -> math_match (drop i s) = None) ->
    math_match (drop st s) = Some n ->
    Scan s (st + n) ms ->
    Scan s pos ((st, st + n) :: ms).

(** What each span of a scan is: a math span is a delimited region, a
    plain span holds no match of [_MATH_RE]. *)
Definition span_ok (sp : span) : Prop :=
  match sp with
  | Math t => protected_region t
  | Plain t => finditer t = []
  end.

(** ** The substitution table of the specification

    The twelve rows of the table, each a rewriting of a whole plain span,
    and their composition in the order of the table. *)
Definition rule_em_dash : str -> str := sub (Literal (py "---")) [EM_DASH].
Definition rule_en_dash : str -> str := sub (Literal (py "--")) [EN_DASH].
Definition rule_open_quote : str -> str := sub (Literal (py "``")) [LDQUO].
Definition rule_close_quote : str -> str := sub (Literal (py "''")) [RDQUO].
Definition rule_thin_space : str -> str := sub (LiteralSpaces (py "\,")) [THIN_SPACE].
Definition rule_semicolon_space : str -> str := sub (Literal (py "\;")) [MEDIUM_SPACE].
Definition rule_colon_space : str -> str := sub (Literal (py "\:")) [MEDIUM_SPACE].
Definition rule_negative_space : str -> str := sub (Literal (py "\!")) [].
Definition rule_tilde : str -> str := sub (Literal (py "~")) [NBSP].
Definition rule_hyphenation : str -> str := sub (Literal (py "\-")) [].
Definition rule_italic_correction : str -> str := sub (Literal (py "\/")) [].
Definition rule_ampersand : str -> str := sub (Literal (py "\&")) (py "&").

Definition table_rewrite (t : str) : str :=
  rule_ampersand
    (rule_italic_correction
       (rule_hyphenation
          (rule_tilde
             (rule_negative_space
                (rule_colon_space
                   (rule_semicolon_space
                      (rule_thin_space
                         (rule_close_quote
                            (rule_open_quote
                               (rule_en_dash
                                  (rule_em_dash t))))))))))).

(** The twelve source patterns of the table; the fifth row is [\,] with the
    whitespace after it, and occurs where [\,] occurs. *)
Definition source_patterns : list str :=
  [ py "---"; py "--"; py "``"; py "''"; py "\,"; py "\;"; py "\:"; py "\!";
    py "~"; py "\-"; py "\/"; py "\&" ].

(** The literal that a pattern of [_tex_replacements] starts with. *)
Definition pattern_literal (pat : pattern) : str :=
  match pat with
  | Literal p => p
  | LiteralSpaces p => p
  end.

(** ** The grammar of identifiers and the pairs of the parser *)

(** The ASCII digits; every digit table of the interpreter holds them. *)
Definition ascii_digit (c : N) : bool := ((48 <=? c) && (c <=? 57))%N.

Definition holds_ascii_digits (isdecimal : N -> bool) : Prop :=
  forall c, ascii_digit c = true -> isdecimal c = true.

(** A whole text of the form [\d{4}\.\d{5}(v\d+)?]. *)
Definition arxiv_id (isdecimal : N -> bool) (x : str) : Prop :=
  exists d4 d5 v : str,
    x = d4 ++ py "." ++ d5 ++ v
    /\ length d4 = 4 /\ Forall (fun c => isdecimal c = true) d4
    /\ length d5 = 5 /\ Forall (fun c => isdecimal c = true) d5
    /\ (v = [] \/ exists ds, v = py "v" ++ ds /\ ds <> []
                             /\ Forall (fun c => isdecimal c = true) ds).

(** The entry that a pair contributes, if any. *)
Definition entry_of_pair (isdecimal : N -> bool) (dt dd : node) : option Entry :=
  match parse_pair isdecimal dt dd with
  | Ok r => r
  | Raise _ => None
  end.

(** The head blocks and the body blocks of a document. *)
Definition head_blocks (soup : node) : list node := select_articles_child (py "dt") soup.
Definition body_blocks (soup : node) : list node := select_articles_child (py "dd") soup.

(** A head block has an identifier link: its first link to [/abs/...] has a
    target in which the pattern of identifiers is found. *)
Definition has_id_link (isdecimal : N -> bool) (dt : node) : bool :=
  match select_one is_abs_link dt with
  | Some a =>
      match search_id isdecimal (default [] (get a (py "href"))) with
      | Some _ => true
      | None => false
      end
  | None => false
  end.

(** The text nodes below a tag, in document order. *)
Definition strings (n : node) : list str :=
  flat_map (fun d => match d with NavigableString t => [t] | _ => [] end)
    (descendants n).

Definition nonempty (s : str) : bool :=
  match s with
  | [] => false
  | _ :: _ => true
  end.

(** ** The title as the specification words it *)

(** [s.split()]: the maximal runs without whitespace; [cur] is the run
    being read. *)
Fixpoint split_from (cur : str) (s : str) : list str :=
  match s with
  | [] => match cur with [] => [] | _ => [cur] end
  | c :: t =>
      if isspace c
      then match cur with
           | [] => split_from [] t
           | _ => cur :: split_from [] t
           end
      else split_from (cur ++ [c]) t
  end.

(** Whitespace collapsed to single spaces and trimmed. *)
Definition collapse_whitespace (s : str) : str :=
  join (py " ") (split_from [] s).

(** The title of claim C6: the flattened text with its whitespace
    collapsed, without the label when the text starts with it. *)
Definition title_as_specified (dd : node) : str :=
  match select_one is_list_title dd with
  | Some t_el =>
      let text := collapse_whitespace (get_text (py " ") true t_el) in
      if startswith (py "Title:") text
      then strip (drop (length (py "Title:")) text)
      else text
  | None => []
  end.

(** A code in parentheses somewhere in a text. *)
Definition parenthesized_code (c text : str) : Prop :=
  c <> []
  /\ Forall (fun x => is_code_char x = true) c
  /\ exists pre post, text = pre ++ [LPAREN] ++ c ++ [RPAREN] ++ post.

(** ** The claims that the code does not satisfy, as they are stated *)

(** C4 as stated: with unequal counts of head and body blocks, exactly
    [min N M] entries. *)
Definition emits_min_of_counts (isdecimal : N -> bool) : Prop :=
  forall soup,
    length (head_blocks soup) <> length (body_blocks soup) ->
    exists entries,
      parse_list isdecimal soup = Ok entries
      /\ length entries = min (length (head_blocks soup)) (length (body_blocks soup)).

(** C5 as stated: entries with equal [id] have equal [abs_url]. *)
Definition abs_url_from_id_alone (isdecimal : N -> bool) : Prop :=
  forall soup1 soup2 entries1 entries2 e1 e2,
    parse_list isdecimal soup1 = Ok entries1 ->
    parse_list isdecimal soup2 = Ok entries2 ->
    e1 ∈ entries1 -> e2 ∈ entries2 ->
    id e1 = id e2 -> abs_url e1 = abs_url e2.

(** C6 as stated: the title of an entry is the title as specified (the
    normalizer then applied to it, as for every title). *)
Definition title_is_as_specified (isdecimal : N -> bool) : Prop :=
  forall dt dd e,
    entry_of_pair isdecimal dt dd = Some e ->
    title e = normalize_tex_like (title_as_specified dd).

(** C7 as stated: an opening delimiter that nothing closes is plain text,
    so it lies in no protected region. *)
Definition unterminated_is_plain : Prop :=
  forall (s pre rest : str) (d : delim),
    s = pre ++ opener d ++ rest ->
    contains (closer d) (drop (min_inner d) rest) = false ->
    forall st en, (st, en) ∈ finditer s -> ~ (st <= length pre < en).

(** The first half of the claim alone: no protected region starts at such
    an opening delimiter. *)
Definition unterminated_starts_no_region : Prop :=
  forall (s pre rest : str) (d : delim),
    s = pre ++ opener d ++ rest ->
    contains (closer d) (drop (min_inner d) rest) = false ->
    forall en, (length pre, en) ∉ finditer s.

(** ** Sample documents *)

Definition text_tag (name : str) (classes : list str) (text : str) : node :=
  Tag name ∅ classes [NavigableString text].

Definition link_to (href : str) : node :=
  Tag (py "a") {[ py "href" := href ]} [] [NavigableString (py "arXiv")].

Definition head_block (links : list node) : node := Tag (py "dt") ∅ [] links.

Definition body_block (title_text subjects_text : str) : node :=
  Tag (py "dd") ∅ []
    [ text_tag (py "div") [py "list-title"; py "mathjax"] title_text;
      text_tag (py "div") [py "list-subjects"] subjects_text ].

Definition listing (blocks : list node) : node :=
  Tag (py "[document]") ∅ []
    [ Tag (py "dl") {[ py "id" := py "articles" ]} [] blocks ].

(** Two head blocks, the first without a link, and one body block. *)
Definition listing_without_link : node :=
  listing [ head_block [];
            body_block (py "Title: Dust lanes") (py "Subjects: (astro-ph.GA)");
            head_block [link_to (py "/abs/2401.12345")] ].

(** Two pairs whose links name the same identifier. *)
Definition listing_same_id : node :=
  listing [ head_block [link_to (py "/abs/2401.12345")];
            body_block (py "Title: Dust lanes") (py "Subjects: (astro-ph.GA)");
            head_block [link_to (py "/abs/2401.12345?context=astro-ph")];
            body_block (py "Title: Dust lanes") (py "Subjects: (astro-ph.GA)") ].

Definition sample_dt : node := head_block [link_to (py "/abs/2401.12345v2")].

Definition sample_dd : node :=
  body_block (py "Title: Dust  lanes")
    (py "Subjects: Astrophysics of Galaxies (astro-ph.GA); Instrumentation (astro-ph.IM); (astro-ph.GA) ()").

Definition empty_entry : Entry :=
  {| id := []; title := []; abstract := []; abs_url := []; codes := ∅ |}.

Definition sample_entry : Entry :=
  default empty_entry (entry_of_pair ascii_digit sample_dt sample_dd).

(** ** The renderer: strings and numbers *)

(** The truth value of a list in a condition: it is not empty. *)
Definition truthy {A : Type} (l : list A) : bool :=
  match l with
  | [] => false
  | _ :: _ => true
  end.

Definition DQUOTE : str := [34%N].
Definition NL : str := [10%N].

(** [s.replace(old, new)] for a non-empty [old]: every occurrence found by
    a scan from left to right is replaced; [skip] counts the characters of
    the current occurrence that the scan still has to step over. *)
Fixpoint replace_from (old new : str) (skip : nat) (s : str) : str :=
  match s with
  | [] => []
  | c :: t =>
      match skip with
      | S k => replace_from old new k t
      | O =>
          if startswith old s
          then new ++ replace_from old new (pred (length old)) t
          else c :: replace_from old new 0 t
      end
  end.

Definition replace (old new s : str) : str := replace_from old new 0 s.

(** [str(n)] for an integer: its decimal digits, after a minus sign when it
    is negative. *)
Definition str_of_int (n : Z) : str := py (DecimalString.NilZero.string_of_int (Z.to_int n)).

(** [format(s, ">width")]: spaces on the left up to [width] characters. *)
Definition rjust (width : nat) (s : str) : str :=
  replicate (width - length s) 32%N ++ s.

(** ** The renderer *)

Definition escape_html (s : str) : str :=
  replace DQUOTE (py "&quot;")
    (replace (py ">") (py "&gt;")
       (replace (py "<") (py "&lt;")
          (replace (py "&") (py "&amp;") s))).

(** The dictionary of [ordinal_day]. *)
Definition ordinal_suffixes : gmap Z str :=
  {[ 1%Z := py "st"; 2%Z := py "nd"; 3%Z := py "rd" ]}.

Definition ordinal_day (d : Z) : str :=
  let suf :=
    if ((10 <=? d mod 100) && (d mod 100 <=? 20))%Z
    then py "th"
    else default (py "th") (ordinal_suffixes !! (d mod 10)%Z) in
  str_of_int d ++ suf.

Definition mj_config : str :=
  NL
    ++ py "    <script>" ++ NL
    ++ py "    window.MathJax = {" ++ NL
    ++ py "      tex: {" ++ NL
    ++ py "        inlineMath: [['$', '$'], ['\\(', '\\)']]," ++ NL
    ++ py "        displayMath: [['$$','$$'], ['\\[','\\]']]," ++ NL
    ++ py "        packages: {'[+]': ['textmacros']}" ++ NL
    ++ py "      }," ++ NL
    ++ py "      options: { skipHtmlTags: ['script','noscript','style','textarea','pre','code'] }" ++ NL
    ++ py "    };" ++ NL
    ++ py "    </script>" ++ NL
    ++ py "    <script id=" ++ DQUOTE ++ py "MathJax-script" ++ DQUOTE ++ py " async" ++ NL
    ++ py "      src=" ++ DQUOTE ++ py "https://cdn.jsdelivr.net/npm/mathjax@3/es5/tex-chtml.js" ++ DQUOTE ++ py "></script>" ++ NL
    ++ py "    ".

Definition html_head (page_title : str) : str :=
  py "<!doctype html>" ++ NL
    ++ py "<html lang=" ++ DQUOTE ++ py "en" ++ DQUOTE ++ py ">" ++ NL
    ++ py "<head>" ++ NL
    ++ py "<meta charset=" ++ DQUOTE ++ py "utf-8" ++ DQUOTE ++ py ">" ++ NL
    ++ py "<title>"
    ++ escape_html page_title
    ++ py "</title>" ++ NL
    ++ py "<meta name=" ++ DQUOTE ++ py "viewport" ++ DQUOTE ++ py " content=" ++ DQUOTE ++ py "width=device-width,initial-scale=1" ++ DQUOTE ++ py ">" ++ NL
    ++ py "<style>" ++ NL
    ++ py "  :root {" ++ NL
    ++ py "    --ink: #1b1f23; --muted: #666; --rule: #eee; --accent: #004aad;" ++ NL
    ++ py "  }" ++ NL
    ++ py "  body { font: 16px/1.6 system-ui,-apple-system,Segoe UI,Roboto,Arial,sans-serif;" ++ NL
    ++ py "         margin: 2rem auto; max-width: 900px; padding: 0 1rem; color: var(--ink); }" ++ NL
    ++ py "  h1 { margin: 0 0 .25rem 0; font-size: 1.8rem; }" ++ NL
    ++ py "  .sub { color: var(--muted); margin: 0 0 1.25rem 0; }" ++ NL
    ++ py "  h2 { margin: 1.5rem 0 .5rem; font-size: 1.15rem; color: var(--muted); font-weight: 600; }" ++ NL
    ++ py "  article { padding: .75rem 0; border-top: 1px solid var(--rule); }" ++ NL
    ++ py "  a.title { text-decoration: none; font-weight: 600; color: inherit; }" ++ NL
    ++ py "  a.title:hover { text-decoration: underline; color: var(--accent); }" ++ NL
    ++ py "  .id { color:#999; font-size:.9rem; margin-left:.5rem; }" ++ NL
    ++ py "  details { margin-top: .35rem; }" ++ NL
    ++ py "  summary { cursor: pointer; color: var(--accent); outline: none; }" ++ NL
    ++ py "  .num { font-variant-numeric: tabular-nums; width: 2.25rem; display:inline-block; color:#999; }" ++ NL
    ++ py "</style>" ++ NL
    ++ mj_config
    ++ NL
    ++ py "</head>" ++ NL
    ++ py "<body>" ++ NL.

Definition html_tail : str := py "</body>" ++ NL ++ py "</html>".

(** [it["title"] or it["id"]] *)
Definition shown_title (it : Entry) : str :=
  match title it with
  | [] => id it
  | _ :: _ => title it
  end.

(** The text that the loop of [html_section] appends for the item [it]
    under the number [n]. *)
Definition article (n : Z) (it : Entry) : str :=
  let title_ := shown_title it in
  py "<article><div><span class=" ++ DQUOTE ++ py "num" ++ DQUOTE ++ py ">"
    ++ rjust 2 (str_of_int n)
    ++ py ".</span> <a class=" ++ DQUOTE ++ py "title" ++ DQUOTE ++ py " href=" ++ DQUOTE
    ++ abs_url it
    ++ DQUOTE ++ py " target=" ++ DQUOTE ++ py "_blank" ++ DQUOTE ++ py " rel=" ++ DQUOTE ++ py "noopener noreferrer" ++ DQUOTE ++ py ">"
    ++ escape_html title_
    ++ py "</a><span class=" ++ DQUOTE ++ py "id" ++ DQUOTE ++ py ">["
    ++ id it
    ++ py "]</span></div><details><summary>Abstract</summary><div><p>"
    ++ escape_html (abstract it)
    ++ py "</p></div></details></article>".

(** The loop [for it in items] with its variables [parts] and [n]. *)
Fixpoint for_items (items : list Entry) (parts : list str) (n : Z) : list str * Z :=
  match items with
  | [] => (parts, n)
  | it :: rest => for_items rest (parts ++ [article n it]) (n + 1)
  end.

Definition html_section (heading : str) (items : list Entry) (start_index : Z)
  : str * Z :=
  let parts := [py "<h2>" ++ escape_html heading ++ py "</h2>"] in
  let '(parts, n) := for_items items parts start_index in
  (concat parts, n).

(** The loop [for subheader, items in sections] of [html_page] with its
    variables [body] and [i]. *)
Fixpoint for_sections (sections : list (str * list Entry)) (body : list str) (i : Z)
  : list str * Z :=
  match sections with
  | [] => (body, i)
  | (subheader, items) :: rest =>
      match items with
      | [] => for_sections rest body i
      | _ :: _ =>
          let '(sec_html, i') := html_section subheader items i in
          for_sections rest (body ++ [sec_html]) i'
      end
  end.

Definition html_page (page_title date_str top_subtitle : str)
    (sections : list (str * list Entry)) : str :=
  let total :=
    fold_left (fun acc s => acc + Z.of_nat (length (snd s)))%Z sections 0%Z in
  let head := html_head (page_title ++ py " " ++ [8212%N] ++ py " " ++ date_str) in
  let cats :=
    map fst (List.filter (fun s => truthy (snd s)) sections) in
  let cats_str := join (py "; ") cats in
  let meta_bits := [date_str] in
  let meta_bits :=
    match cats_str with
    | [] => meta_bits
    | _ :: _ => meta_bits ++ [cats_str]
    end in
  let meta_bits :=
    meta_bits ++ [str_of_int total ++ py " entr"
                  ++ (if (total =? 1)%Z then py "y" else py "ies")] in
  let body :=
    [ py "<h1>" ++ escape_html page_title ++ py "</h1>";
      py "<div class=" ++ DQUOTE ++ py "sub" ++ DQUOTE ++ py ">"
        ++ escape_html (join (py " " ++ [183%N] ++ py " ") meta_bits)
        ++ py "</div>" ] in
  let body :=
    match top_subtitle with
    | [] => body
    | _ :: _ => body ++ [py "<h2>" ++ escape_html top_subtitle ++ py "</h2>"]
    end in
  let '(body, _) := for_sections sections body 1 in
  head ++ join NL body ++ html_tail.

(** ** Views of the renderer for its properties *)

(** The image of one character under [escape_html]. *)
Definition escape_char (c : N) : str :=
  if (c =? 38)%N then py "&amp;"
  else if (c =? 60)%N then py "&lt;"
  else if (c =? 62)%N then py "&gt;"
  else if (c =? 34)%N then py "&quot;"
  else [c].

(** ** The program: [main] and the world around it

    [main] reads the clock, fetches four listing pages and writes three
    files. The world is a parameter of the model: [http_get url] is what
    [requests.get] followed by [raise_for_status] gives for the URL, the
    text of the response or an exception; [BeautifulSoup] is the tree that
    the parser makes of a text; [write_file name content] is [open] with
    [write], [None] when no exception is raised; [stamp], [day] and
    [month_year] are [today.strftime("%Y%m%d")], [today.day] and
    [today.strftime('%B %Y')]. What the program does outside is kept in a
    log of actions, in order. *)

Definition INTEREST_CATS : list str :=
  [py "physics.hist-ph"; py "physics.ed-ph"; py "physics.pop-ph"].

Definition HUMAN_NAMES : gmap str str :=
  {[ py "astro-ph.GA" := py "Astrophysics of Galaxies";
     py "astro-ph.IM" := py "Instrumentation and Methods";
     py "physics.hist-ph" := py "History & Philosophy of Physics";
     py "physics.ed-ph" := py "Physics Education";
     py "physics.pop-ph" := py "Popular Physics" ]}.

(** [d[key]] on a dictionary. *)
Definition dict_getitem (d : gmap str str) (key : str) : result str :=
  match d !! key with
  | Some v => Ok v
  | None => Raise (KeyError key)
  end.

(** [nice_date(dt)] for a date with the day [day] and with [month_year]
    for [dt.strftime('%B %Y')]. *)
Definition nice_date (day : Z) (month_year : str) : str :=
  ordinal_day day ++ py " " ++ month_year.

(** The URL that [fetch_list_html] asks for. *)
Definition list_url (category : str) : str :=
  BASE ++ py "/list/" ++ category ++ py "/new".

Inductive action :=
| Get (url : str)
| WriteFile (name content : str).

(** What ends a run early: an exception of the world, or one of the
    program's own. *)
Inductive failure (env_error : Type) :=
| EnvError (x : env_error)
| PyError (e : exception).
Arguments EnvError {env_error} x.
Arguments PyError {env_error} e.

Inductive outcome (env_error A : Type) :=
| Done (a : A)
| Failed (f : failure env_error).
Arguments Done {env_error A} a.
Arguments Failed {env_error A} f.

(** A computation with a log. *)
Definition io (env_error A : Type) : Type :=
  list action -> list action * outcome env_error A.

Definition io_ret {X A : Type} (a : A) : io X A := fun log => (log, Done a).

Definition io_bind {X A B : Type} (m : io X A) (k : A -> io X B) : io X B :=
  fun log =>
    match m log with
    | (log', Done a) => k a log'
    | (log', Failed f) => (log', Failed f)
    end.

Notation "'do!' x := m 'in' k" := (io_bind m (fun x => k))
  (at level 10, x name, m at level 200, k at level 200).

(** A step of the program itself, which can raise. *)
Definition io_py {X A : Type} (r : result A) : io X A :=
  fun log =>
    match r with
    | Ok a => (log, Done a)
    | Raise e => (log, Failed (PyError e))
    end.

Section Program.

Variable isdecimal : N -> bool.
Variable env_error : Type.
Variable http_get : str -> env_error + str.
Variable BeautifulSoup : str -> node.
Variable write_file : str -> str -> option env_error.
Variables stamp month_year : str.
Variable day : Z.

Definition fetch_list_html (category : str) : io env_error str :=
  fun log =>
    let url := list_url category in
    match http_get url with
    | inr text => (log ++ [Get url], Done text)
    | inl x => (log ++ [Get url], Failed (EnvError x))
    end.

(** [with open(name, "w") as f: f.write(content)] *)
Definition write (name content : str) : io env_error unit :=
  fun log =>
    match write_file name content with
    | None => (log ++ [WriteFile name content], Done tt)
    | Some x => (log ++ [WriteFile name content], Failed (EnvError x))
    end.

(** The loop [for cat in INTEREST_CATS] with its variable
    [interest_groups]. *)
Fixpoint for_cats (cats : list str) (interest_groups : list (str * list Entry))
  : io env_error (list (str * list Entry)) :=
  match cats with
  | [] => io_ret interest_groups
  | cat :: rest =>
      do! html := fetch_list_html cat in
      do! ents := io_py (parse_list isdecimal (BeautifulSoup html)) in
      for_cats rest (interest_groups ++ [(default cat (HUMAN_NAMES !! cat), ents)])
  end.

Definition main : io env_error unit :=
  let date_long := nice_date day month_year in
  do! html := fetch_list_html (py "astro-ph") in
  do! astro_entries := io_py (parse_list isdecimal (BeautifulSoup html)) in
  let '(pri_ga, pri_im, main_rest) := bucket astro_entries [] [] [] in
  do! interest_groups := for_cats INTEREST_CATS [] in
  do! name_ga := io_py (dict_getitem HUMAN_NAMES (py "astro-ph.GA")) in
  do! name_im := io_py (dict_getitem HUMAN_NAMES (py "astro-ph.IM")) in
  let priority_sections := [(name_ga, pri_ga); (name_im, pri_im)] in
  do! _ := write (stamp ++ py "_Priority.html")
             (html_page (py "Priority") date_long [] priority_sections) in
  let main_sections := [(py "Astrophysics (other categories)", main_rest)] in
  do! _ := write (stamp ++ py "_Main.html")
             (html_page (py "Main") date_long [] main_sections) in
  write (stamp ++ py "_Interest.html")
    (html_page (py "Interest") date_long [] interest_groups).

End Program.

(** The entries that [parse_list] returns for a fetched text. *)
Definition fetched_entries (isdecimal : N -> bool) (BeautifulSoup : str -> node)
    (html : str) : list Entry :=
  omap (fun p => entry_of_pair isdecimal (fst p) (snd p))
    (zip (head_blocks (BeautifulSoup html)) (body_blocks (BeautifulSoup html))).

(** The URLs that [main] asks for, in order. *)
Definition listing_urls : list str :=
  map list_url (py "astro-ph" :: INTEREST_CATS).

(** Sample worlds: one where every request fails, one where every request
    returns a page that is parsed to [listing_same_id] and every write
    succeeds. *)
Definition failing_get (url : str) : unit + str := inl tt.
Definition sample_get (url : str) : unit + str := inr (py "<html>").
Definition sample_soup (html : str) : node := listing_same_id.
Definition sample_write (name content : str) : option unit := None.
(** ** Protected regions as the specification words them

    The four pairs of delimiters written out, in the order in which the
    pattern lists them, each with the least number of characters that it
    must enclose. These definitions speak of texts only: they refer
    neither to [_MATH_RE] nor to the scan of the source, and are compared
    with them below. *)
Definition math_delimiters : list (str * str * nat) :=
  [ (py "\(", py "\)", 1);
    (py "\[", py "\]", 1);
    (py "$$", py "$$", 0);
    (py "$", py "$", 0) ].

(** [u] begins with the opening delimiter of the pair, then [inner], then
    the closing delimiter. Any character may stand in [inner], a line feed
    as well. *)
Definition encloses (p : str * str * nat) (u inner : str) : Prop :=
  let '(op, cl, least) := p in
  least <= length inner /\ exists rest, u = op ++ inner ++ cl ++ rest.

Definition opens_region (p : str * str * nat) (u : str) : Prop :=
  exists inner, encloses p u inner.

(** The shortest text that the pair encloses at the head of [u]; [n] is its
    length, delimiters included. *)
Definition shortest_enclosed (p : str * str * nat) (u : str) (n : nat) : Prop :=
  exists inner,
    encloses p u inner
    /\ n = length (fst (fst p)) + length inner + length (snd (fst p))
    /\ forall inner', encloses p u inner' -> length inner <= length inner'.

(** A protected region of length [n] begins at the head of [u]: the first
    pair of the list that encloses something there, with the shortest text
    that it encloses. *)
Definition region_at (u : str) (n : nat) : Prop :=
  exists k p,
    math_delimiters !! k = Some p
    /\ shortest_enclosed p u n
    /\ forall j q, j < k -> math_delimiters !! j = Some q -> ~ opens_region q u.

(** No pair encloses anything at the head of [u]. *)
Definition no_region_at (u : str) : Prop :=
  forall p, p ∈ math_delimiters -> ~ opens_region p u.

(** The protected regions of [s] from [pos] on, from left to right: none
    begins before the first one, and the next is sought from its end. *)
Inductive Regions (s : str) : nat -> list (nat * nat) -> Prop :=
| Regions_end pos :
    (forall i, pos <= i -> no_region_at (drop i s)) ->
    Regions s pos []
| Regions_next pos st n ms :
    pos <= st ->
    (forall i, pos <= i < st -> no_region_at (drop i s)) ->
    region_at (drop st s) n ->
    Regions s (st + n) ms ->
    Regions s pos ((st, st + n) :: ms).

(** What each span is: a math span is a protected region, the whole of it;
    in a plain span no protected region begins anywhere. *)
Definition span_as_specified (sp : span) : Prop :=
  match sp with
  | Math t => region_at t (length t)
  | Plain t => forall i, no_region_at (drop i t)
  end.

(** The pair of an alternative of [_MATH_RE]. *)
Definition delimiters_of (d : delim) : str * str * nat :=
  (opener d, closer d, min_inner d).

(** ** One more sample document *)

(** A head block with two links to [/abs/...]: the first has no identifier
    in its target, the second has one. *)
Definition listing_two_links : node :=
  listing [ head_block [link_to (py "/abs/recent"); link_to (py "/abs/2401.12345")];
            body_block (py "Title: Dust lanes") (py "Subjects: (astro-ph.GA)") ].

(** ** Strings: prefixes and occurrences *)

Lemma startswith_iff (p s : str) :
  startswith p s = true <-> exists r, s = p ++ r.
Proof.
  revert s; induction p as [|a p IH]; intros s; simpl.
  - split; [intros _; by exists s | done].
  - destruct s as [|b s].
    + split; [done | intros [r Hr]; discriminate].
    + rewrite andb_true_iff, N.eqb_eq, IH. split.
      * intros [-> [r ->]]. by exists r.
      * intros [r Hr]. injection Hr as -> ->. eauto.
Qed.

Lemma startswith_app (p r : str) : startswith p (p ++ r) = true.
Proof. apply startswith_iff; eauto. Qed.

Lemma startswith_mono (p s x : str) :
  startswith p s = true -> startswith p (s ++ x) = true.
Proof.
  rewrite !startswith_iff. intros [r ->]. exists (r ++ x). by rewrite app_assoc.
Qed.

Lemma startswith_length (p s : str) :
  startswith p s = true -> length p <= length s.
Proof. rewrite startswith_iff. intros [r ->]. rewrite length_app. lia. Qed.

Lemma startswith_take (p s : str) (n : nat) :
  startswith p (take n s) = true -> startswith p s = true.
Proof.
  intros H. rewrite <- (take_drop n s). by apply startswith_mono.
Qed.

Lemma contains_false_drop (p s : str) (n : nat) :
  contains p s = false -> contains p (drop n s) = false.
Proof.
  revert s; induction n as [|n IH]; intros s H; [by rewrite drop_0|].
  destruct s as [|c s]; [done|]. simpl in *.
  apply orb_false_iff in H as [_ H]. by apply IH.
Qed.

Lemma contains_false_take (p s : str) (n : nat) :
  contains p s = false -> contains p (take n s) = false.
Proof.
  revert n; induction s as [|c s IH]; intros n H.
  - by rewrite take_nil.
  - destruct n as [|n].
    + simpl in *. apply orb_false_iff in H as [H _].
      destruct p; [done|]. done.
    + change (take (S n) (c :: s)) with (c :: take n s).
      simpl in H. apply orb_false_iff in H as [H1 H2].
      simpl. apply orb_false_iff. split; [|by apply IH].
      destruct (startswith p (c :: take n s)) eqn:E; [|done].
      apply (startswith_take p (c :: s) (S n)) in E. congruence.
Qed.

Lemma contains_false_startswith (p s : str) (n : nat) :
  contains p s = false -> startswith p (drop n s) = false.
Proof.
  intros H. apply (contains_false_drop _ _ n) in H.
  destruct (drop n s); simpl in H; by apply orb_false_iff in H as [H _].
Qed.

(** ** The lazy run *)

Lemma find_lazy_Some (c s : str) (k : nat) :
  find_lazy c s = Some k ->
  startswith c (drop k s) = true
  /\ (forall j, j < k -> startswith c (drop j s) = false)
  /\ k + length c <= length s.
Proof.
  revert k; induction s as [|a s IH]; intros k; simpl.
  - destruct (startswith c []) eqn:E; [|done].
    intros [= <-]. split_and!; [done | lia |].
    apply startswith_length in E. simpl in *. lia.
  - destruct (startswith c (a :: s)) eqn:E.
    + intros [= <-]. split_and!; [done | lia |].
      apply startswith_length in E. simpl in *. lia.
    + destruct (find_lazy c s) as [k'|] eqn:F; [|done].
      intros [= <-]. destruct (IH k' eq_refl) as (H1 & H2 & H3).
      split_and!; [done | | simpl; lia].
      intros [|j] Hj; [done|]. apply H2. lia.
Qed.

Lemma find_lazy_None (c s : str) :
  find_lazy c s = None <-> contains c s = false.
Proof.
  induction s as [|a s IH]; simpl.
  - destruct (startswith c []); [by split | by split].
  - destruct (startswith c (a :: s)); simpl; [by split|].
    rewrite <- IH. destruct (find_lazy c s); by split.
Qed.

Lemma find_lazy_mono (c s x : str) (k : nat) :
  find_lazy c s = Some k -> find_lazy c (s ++ x) = Some k.
Proof.
  revert k; induction s as [|a s IH]; intros k.
  - simpl. destruct (startswith c []) eqn:E; [|done]. intros [= <-].
    apply (startswith_mono _ _ x) in E. simpl in E.
    destruct x; simpl; by rewrite E.
  - cbn [find_lazy app]. change ((a :: s) ++ x) with (a :: (s ++ x)).
    destruct (startswith c (a :: s)) eqn:E.
    + intros [= <-]. apply (startswith_mono _ _ x) in E.
      change ((a :: s) ++ x) with (a :: (s ++ x)) in E. by rewrite E.
    + destruct (find_lazy c s) as [k'|] eqn:F; [|done]. intros [= <-].
      rewrite (IH k' eq_refl).
      destruct (startswith c (a :: s ++ x)) eqn:E'; [|done].
      (* the closer occurs at the head of the longer text only *)
      exfalso. apply find_lazy_Some in F as (F1 & _ & F3).
      apply startswith_iff in E' as [r Hr].
      assert (startswith c (a :: s) = true); [|congruence].
      apply startswith_iff. exists (take (length (a :: s) - length c) r).
      apply (f_equal (take (length (a :: s)))) in Hr.
      change (a :: s ++ x) with ((a :: s) ++ x) in Hr.
      rewrite take_app_length in Hr.
      rewrite take_app, take_ge in Hr by (simpl; lia). exact Hr.
Qed.

(** ** One match of [_MATH_RE] *)

Lemma delim_lengths (d : delim) :
  1 <= length (opener d) /\ 1 <= length (closer d).
Proof. destruct d; simpl; lia. Qed.

Lemma match_alt_Some (d : delim) (s : str) (n : nat) :
  match_alt d s = Some n ->
  delimited d (take n s) /\ 2 <= n <= length s.
Proof.
  unfold match_alt. destruct (startswith (opener d) s) eqn:Eo; [|done].
  apply startswith_iff in Eo as [r ->].
  rewrite drop_app_length.
  destruct (find_lazy (closer d) (drop (min_inner d) r)) as [k|] eqn:F; [|done].
  intros [= <-]. apply find_lazy_Some in F as (F1 & F2 & F3).
  rewrite drop_drop in F1. rewrite length_drop in F3.
  destruct (delim_lengths d) as [Ho Hc].
  apply startswith_iff in F1 as [r' Hr'].
  set (m := min_inner d + k) in *.
  assert (Hr : r = take m r ++ closer d ++ r') by (by rewrite <- Hr', take_drop).
  assert (Hm : length (take m r) = m) by (rewrite length_take; lia).
  split.
  - exists (take m r). split_and!.
    + remember (take m r) as inner eqn:Hi. rewrite Hr.
      replace (length (opener d) + min_inner d + k + length (closer d))
        with (length (opener d ++ inner ++ closer d))
        by (rewrite !length_app, Hm; lia).
      rewrite !app_assoc. by rewrite take_app_length.
    + lia.
    + intros j Hj. rewrite Hm in Hj.
      destruct (startswith (closer d) (drop j (take m r ++ closer d))) eqn:E; [|done].
      apply (startswith_mono _ _ r') in E.
      rewrite <- drop_app_le in E by (rewrite length_app; lia).
      rewrite <- app_assoc, <- Hr in E.
      specialize (F2 (j - min_inner d)). rewrite drop_drop in F2.
      replace (min_inner d + (j - min_inner d)) with j in F2 by lia.
      rewrite F2 in E by lia. done.
  - rewrite length_app. lia.
Qed.

Lemma match_alt_mono (d : delim) (s x : str) (n : nat) :
  match_alt d s = Some n -> match_alt d (s ++ x) = Some n.
Proof.
  unfold match_alt. destruct (startswith (opener d) s) eqn:Eo; [|done].
  rewrite (startswith_mono _ _ x Eo).
  destruct (find_lazy (closer d) (drop (min_inner d) (drop (length (opener d)) s)))
    as [k|] eqn:F; [|done].
  intros [= <-].
  pose proof (find_lazy_Some _ _ _ F) as (_ & _ & F3).
  rewrite !length_drop in F3. destruct (delim_lengths d) as [_ Hc].
  rewrite !drop_app_le by (rewrite ?length_drop; lia).
  by rewrite (find_lazy_mono _ _ x _ F).
Qed.

Lemma first_alt_Some (alts : list delim) (s : str) (n : nat) :
  first_alt alts s = Some n -> exists d, match_alt d s = Some n.
Proof.
  induction alts as [|d ds IH]; simpl; [done|].
  destruct (match_alt d s) eqn:E; [intros [= <-]; eauto | done].
Qed.

Lemma first_alt_mono (alts : list delim) (s x : str) (n : nat) :
  first_alt alts s = Some n -> first_alt alts (s ++ x) <> None.
Proof.
  induction alts as [|d ds IH]; simpl; [done|].
  destruct (match_alt d s) eqn:E.
  - intros _. by rewrite (match_alt_mono _ _ x _ E).
  - intros H. destruct (match_alt d (s ++ x)); [done | by apply IH].
Qed.

Lemma math_match_Some (s : str) (n : nat) :
  math_match s = Some n ->
  protected_region (take n s) /\ 2 <= n <= length s.
Proof.
  intros H. apply first_alt_Some in H as [d H].
  apply match_alt_Some in H as [H1 H2]. split; [by exists d | done].
Qed.

Lemma math_match_None_take (s : str) (n : nat) :
  math_match s = None -> math_match (take n s) = None.
Proof.
  intros H. destruct (math_match (take n s)) as [k|] eqn:E; [|done].
  apply (first_alt_mono _ _ (drop n s)) in E.
  rewrite take_drop in E. done.
Qed.

(** ** The scan *)

Lemma Scan_step (s : str) (pos : nat) (ms : list (nat * nat)) :
  math_match (drop pos s) = None -> Scan s (S pos) ms -> Scan s pos ms.
Proof.
  intros Hn H. inversion H as [p Hall | p st n ms' Hle Hgap Hm Hrest]; subst.
  - apply Scan_end. intros i Hi.
    destruct (decide (i = pos)) as [->|]; [done | apply Hall; lia].
  - apply Scan_match; [lia | | done | done].
    intros i Hi. destruct (decide (i = pos)) as [->|]; [done | apply Hgap; lia].
Qed.

Lemma finditer_from_Scan (s t : str) (pos skip : nat) :
  drop pos s = t -> skip <= length t ->
  Scan s (pos + skip) (finditer_from pos skip t).
Proof.
  revert pos skip; induction t as [|c t IH]; intros pos skip Hd Hs.
  - simpl in *. apply Scan_end. intros i Hi.
    assert (drop i s = []) as ->; [|done].
    apply drop_ge. apply (f_equal length) in Hd.
    rewrite length_drop in Hd. simpl in Hd. lia.
  - assert (Hd' : drop (S pos) s = t).
    { replace (S pos) with (pos + 1) by lia.
      by rewrite <- drop_drop, Hd. }
    simpl. destruct skip as [|k].
    + destruct (math_match (c :: t)) as [n|] eqn:E.
      * pose proof (math_match_Some _ _ E) as [_ Hn]. simpl in Hn.
        rewrite Nat.add_0_r.
        apply Scan_match; [lia | lia | by rewrite Hd |].
        replace (pos + n) with (S pos + pred n) by lia.
        apply IH; [done | lia].
      * rewrite Nat.add_0_r.
        apply Scan_step; [by rewrite Hd |].
        replace (S pos) with (S pos + 0) at 1 by lia. apply IH; [done | lia].
    + replace (pos + S k) with (S pos + k) by lia.
      apply IH; [done | simpl in Hs; lia].
Qed.

Lemma finditer_Scan (s : str) : Scan s 0 (finditer s).
Proof. apply (finditer_from_Scan s s 0 0); [done | lia]. Qed.

(** ** The loop of the normalizer and the spans *)

Lemma apply_replacements_nil : apply_replacements [] = [].
Proof. reflexivity. Qed.

Lemma slice_empty (s : str) (a b : nat) : b <= a -> slice s a b = [].
Proof. intros H. unfold slice. by replace (b - a) with 0 by lia. Qed.

Lemma for_matches_spans (s : str) (ms : list (nat * nat)) (out : list str) (pos : nat) :
  concat (fst (for_matches s ms out pos))
    ++ apply_replacements (drop (snd (for_matches s ms out pos)) s)
  = concat out ++ concat (map (emit apply_replacements) (spans_from s pos ms)).
Proof.
  revert out pos; induction ms as [|[m_start m_end] ms IH]; intros out pos.
  - simpl. by rewrite app_nil_r.
  - cbn [for_matches spans_from map concat emit]. rewrite IH.
    rewrite concat_app. simpl. rewrite app_nil_r, <- !app_assoc.
    destruct (pos <? m_start) eqn:E.
    + rewrite concat_app. simpl. by rewrite app_nil_r, <- !app_assoc.
    + apply Nat.ltb_ge in E.
      by rewrite (slice_empty s pos m_start E), apply_replacements_nil.
Qed.

Lemma apply_tex_spans (s : str) :
  _apply_tex_outside_math s = concat (map (emit apply_replacements) (spans s)).
Proof.
  unfold _apply_tex_outside_math, spans.
  pose proof (for_matches_spans s (finditer s) [] 0) as H.
  destruct (for_matches s (finditer s) [] 0) as [out pos]. simpl in H.
  rewrite <- H. destruct (pos <? length s) eqn:E.
  - rewrite concat_app. simpl. by rewrite app_nil_r.
  - apply Nat.ltb_ge in E. rewrite (drop_ge s pos E), apply_replacements_nil.
    by rewrite app_nil_r.
Qed.

Lemma normalize_spans (s : str) :
  normalize_tex_like s = concat (map (emit apply_replacements) (spans s)).
Proof.
  destruct s as [|c s]; [reflexivity|].
  unfold normalize_tex_like. apply apply_tex_spans.
Qed.

Lemma Scan_partition (s : str) (pos : nat) (ms : list (nat * nat)) :
  Scan s pos ms -> concat (map raw (spans_from s pos ms)) = drop pos s.
Proof.
  induction 1 as [pos Hall | pos st n ms Hle Hgap Hm Hrest IH].
  - simpl. by rewrite app_nil_r.
  - cbn [spans_from map concat raw]. rewrite IH. unfold slice.
    replace (st + n - st) with n by lia.
    assert (E1 : take (st - pos) (drop pos s) ++ drop st s = drop pos s).
    { rewrite <- (take_drop (st - pos) (drop pos s)) at 2.
      rewrite drop_drop. do 2 f_equal. lia. }
    assert (E2 : take n (drop st s) ++ drop (st + n) s = drop st s).
    { by rewrite <- drop_drop, take_drop. }
    by rewrite E2, E1.
Qed.

Lemma no_match_finditer (t : str) (pos : nat) :
  (forall i, math_match (drop i t) = None) -> finditer_from pos 0 t = [].
Proof.
  revert pos; induction t as [|c t IH]; intros pos H; [done|].
  pose proof (H 0) as H0. rewrite drop_0 in H0.
  cbn [finditer_from]. rewrite H0. apply IH. intros i. apply (H (S i)).
Qed.

Lemma Scan_spans_ok (s : str) (pos : nat) (ms : list (nat * nat)) :
  Scan s pos ms -> Forall span_ok (spans_from s pos ms).
Proof.
  induction 1 as [pos Hall | pos st n ms Hle Hgap Hm Hrest IH].
  - repeat constructor. simpl. apply no_match_finditer.
    intros i. rewrite drop_drop. apply Hall. lia.
  - cbn [spans_from]. constructor; [|constructor; [|done]].
    + simpl. apply no_match_finditer. intros i. unfold slice.
      destruct (decide (i < st - pos)) as [Hi|Hi].
      * rewrite skipn_firstn_comm, drop_drop.
        apply math_match_None_take, Hgap. lia.
      * rewrite drop_ge; [done|]. rewrite length_take. lia.
    + simpl. unfold slice. replace (st + n - st) with n by lia.
      by apply math_match_Some in Hm as [Hm _].
Qed.

(** ** The pattern and the regions of the specification *)

Lemma math_delimiters_pattern : map delimiters_of _MATH_RE = math_delimiters.
Proof. reflexivity. Qed.

Lemma match_alt_shortest (d : delim) (u : str) (n : nat) :
  match_alt d u = Some n -> shortest_enclosed (delimiters_of d) u n.
Proof.
  unfold match_alt. destruct (startswith (opener d) u) eqn:Eo; [|done].
  apply startswith_iff in Eo as [r ->]. rewrite drop_app_length.
  destruct (find_lazy (closer d) (drop (min_inner d) r)) as [k|] eqn:F; [|done].
  intros [= <-]. apply find_lazy_Some in F as (F1 & F2 & F3).
  rewrite drop_drop in F1. rewrite length_drop in F3.
  destruct (delim_lengths d) as [_ Hc].
  apply startswith_iff in F1 as [r' Hr'].
  set (m := min_inner d + k) in *.
  assert (Hr : r = take m r ++ closer d ++ r') by (by rewrite <- Hr', take_drop).
  assert (Hm : length (take m r) = m) by (rewrite length_take; lia).
  exists (take m r). split_and!.
  - split; [simpl; rewrite Hm; lia|]. exists r'. by rewrite <- Hr.
  - simpl. rewrite Hm. lia.
  - intros inner' [Hl [rest' E]]. simpl in Hl. apply app_inv_head in E.
    rewrite Hm. destruct (decide (m <= length inner')) as [|Hlt]; [done|].
    exfalso. specialize (F2 (length inner' - min_inner d)).
    rewrite drop_drop in F2.
    replace (min_inner d + (length inner' - min_inner d)) with (length inner') in F2 by lia.
    rewrite E, drop_app_length, startswith_app in F2.
    unfold m in Hlt. discriminate F2. lia.
Qed.

Lemma match_alt_None (d : delim) (u : str) :
  match_alt d u = None -> ~ opens_region (delimiters_of d) u.
Proof.
  intros H (inner & Hl & rest & ->). simpl in Hl.
  unfold match_alt in H. rewrite startswith_app, drop_app_length in H.
  destruct (find_lazy _ _) eqn:F; [done|]. apply find_lazy_None in F.
  apply (contains_false_startswith _ _ (length inner - min_inner d)) in F.
  rewrite drop_drop in F.
  replace (min_inner d + (length inner - min_inner d)) with (length inner) in F by lia.
  by rewrite drop_app_length, startswith_app in F.
Qed.

Lemma first_alt_first (alts : list delim) (u : str) (n : nat) :
  first_alt alts u = Some n ->
  exists k d, alts !! k = Some d /\ match_alt d u = Some n
              /\ forall j d', j < k -> alts !! j = Some d' -> match_alt d' u = None.
Proof.
  induction alts as [|d ds IH]; simpl; [done|].
  destruct (match_alt d u) as [n'|] eqn:E.
  - intros [= <-]. exists 0, d. split_and!; [done | done | lia].
  - intros H. destruct (IH H) as (k & d0 & Hk & Hm & Hp).
    exists (S k), d0. split_and!; [done | done |].
    intros [|j] d' Hj Hd'; simpl in Hd'; [by injection Hd' as <- | apply (Hp j); [lia | done]].
Qed.

Lemma first_alt_None (alts : list delim) (u : str) (d : delim) :
  first_alt alts u = None -> d ∈ alts -> match_alt d u = None.
Proof.
  induction alts as [|d0 ds IH]; simpl; intros H Hin; [by apply elem_of_nil in Hin|].
  destruct (match_alt d0 u) eqn:E; [done|].
  apply elem_of_cons in Hin as [->|Hin]; [done | by apply IH].
Qed.

Lemma math_match_region (u : str) (n : nat) :
  math_match u = Some n -> region_at u n.
Proof.
  intros H. apply first_alt_first in H as (k & d & Hk & Hm & Hp).
  exists k, (delimiters_of d). split_and!.
  - by rewrite <- math_delimiters_pattern, list_lookup_fmap, Hk.
  - by apply match_alt_shortest.
  - intros j q Hj Hq. rewrite <- math_delimiters_pattern, list_lookup_fmap in Hq.
    destruct (_MATH_RE !! j) as [d'|] eqn:Ed; [|done]. injection Hq as <-.
    apply match_alt_None. by apply (Hp j).
Qed.

Lemma math_match_no_region (u : str) :
  math_match u = None -> no_region_at u.
Proof.
  intros H p Hp. rewrite <- math_delimiters_pattern in Hp.
  apply list_elem_of_fmap in Hp as (d & -> & Hd).
  apply match_alt_None. by apply (first_alt_None _MATH_RE).
Qed.

Lemma Scan_Regions (s : str) (pos : nat) (ms : list (nat * nat)) :
  Scan s pos ms -> Regions s pos ms.
Proof.
  induction 1 as [pos Hall | pos st n ms Hle Hgap Hm Hrest IH].
  - apply Regions_end. intros i Hi. by apply math_match_no_region, Hall.
  - apply Regions_next; [done | | by apply math_match_region | done].
    intros i Hi. by apply math_match_no_region, Hgap.
Qed.

(** The regions of the specification are determined by the text. *)
Lemma shortest_enclosed_opens (p : str * str * nat) (u : str) (n : nat) :
  shortest_enclosed p u n -> opens_region p u.
Proof. intros (inner & H & _). by exists inner. Qed.

Lemma region_at_opens (u : str) (n : nat) :
  region_at u n -> exists p, p ∈ math_delimiters /\ opens_region p u.
Proof.
  intros (k & p & Hk & Hs & _). exists p. split.
  - by eapply list_elem_of_lookup_2.
  - by eapply shortest_enclosed_opens.
Qed.

Lemma region_at_unique (u : str) (n n' : nat) :
  region_at u n -> region_at u n' -> n = n'.
Proof.
  intros (k & p & Hk & Hs & Hp) (k' & p' & Hk' & Hs' & Hp').
  assert (k = k') as <-.
  { destruct (Nat.lt_trichotomy k k') as [Hlt|[->|Hlt]]; [|done|].
    - destruct (Hp' k p Hlt Hk). by eapply shortest_enclosed_opens.
    - destruct (Hp k' p' Hlt Hk'). by eapply shortest_enclosed_opens. }
  rewrite Hk in Hk'. injection Hk' as <-.
  destruct Hs as (inner & He & -> & Hmin), Hs' as (inner' & He' & -> & Hmin').
  specialize (Hmin _ He'). specialize (Hmin' _ He). lia.
Qed.

Lemma Regions_unique (s : str) (pos : nat) (ms ms' : list (nat * nat)) :
  Regions s pos ms -> Regions s pos ms' -> ms = ms'.
Proof.
  intros H; revert ms'.
  induction H as [pos Hall | pos st n ms Hle Hgap Hm Hrest IH]; intros ms' H'.
  - inversion H' as [p Hall' | p st' n' ms0 Hle' Hgap' Hm' Hrest']; subst; [done|].
    apply region_at_opens in Hm' as (p & Hp & Ho). by destruct (Hall st' Hle' p Hp).
  - inversion H' as [p Hall' | p st' n' ms0 Hle' Hgap' Hm' Hrest']; subst.
    + apply region_at_opens in Hm as (p & Hp & Ho). by destruct (Hall' st Hle p Hp).
    + assert (st = st') as <-.
      { destruct (Nat.lt_trichotomy st st') as [Hlt|[->|Hlt]]; [|done|].
        - apply region_at_opens in Hm as (p & Hp & Ho).
          by destruct (Hgap' st (conj Hle Hlt) p Hp).
        - apply region_at_opens in Hm' as (p & Hp & Ho).
          by destruct (Hgap st' (conj Hle' Hlt) p Hp). }
      rewrite (region_at_unique _ _ _ Hm Hm') in *. f_equal. by apply IH.
Qed.

(** A region that begins a text is a region of its own; a text with no
    region at its head has none in what is cut out of it. *)
Lemma encloses_mono (p : str * str * nat) (u x inner : str) :
  encloses p u inner -> encloses p (u ++ x) inner.
Proof.
  destruct p as [[op cl] least]. intros [Hl [rest ->]]. split; [done|].
  exists (rest ++ x). by rewrite <- !app_assoc.
Qed.

Lemma no_region_at_take (u : str) (k : nat) :
  no_region_at u -> no_region_at (take k u).
Proof.
  intros H p Hp [inner Hi]. apply (H p Hp). exists inner.
  rewrite <- (take_drop k u). by apply encloses_mono.
Qed.

Lemma region_at_take (u : str) (n : nat) :
  region_at u n -> region_at (take n u) n /\ length (take n u) = n.
Proof.
  intros (k & p & Hk & (inner & He & Hn & Hmin) & Hp).
  destruct p as [[op cl] least]. destruct He as [Hl [rest ->]]. simpl in Hn.
  assert (Et : take n (op ++ inner ++ cl ++ rest) = op ++ inner ++ cl).
  { replace n with (length (op ++ inner ++ cl)) by (rewrite !length_app; lia).
    rewrite !app_assoc. rewrite take_app_length. by rewrite <- !app_assoc. }
  rewrite Et. split; [|rewrite !length_app; lia].
  exists k, (op, cl, least). split_and!; [done | |].
  - exists inner. split_and!.
    + split; [done|]. exists []. by rewrite app_nil_r.
    + done.
    + intros inner' He'. apply Hmin.
      apply (encloses_mono _ _ rest) in He'. by rewrite <- !app_assoc in He'.
  - intros j q Hj Hq [inner' He']. apply (Hp j q Hj Hq). exists inner'.
    apply (encloses_mono _ _ rest) in He'. by rewrite <- !app_assoc in He'.
Qed.

Lemma Regions_spans (s : str) (pos : nat) (ms : list (nat * nat)) :
  Regions s pos ms -> Forall span_as_specified (spans_from s pos ms).
Proof.
  induction 1 as [pos Hall | pos st n ms Hle Hgap Hm Hrest IH].
  - repeat constructor. simpl. intros i. rewrite drop_drop. apply Hall. lia.
  - cbn [spans_from]. constructor; [|constructor; [|done]].
    + simpl. intros i. unfold slice.
      destruct (decide (i < st - pos)) as [Hi|Hi].
      * rewrite skipn_firstn_comm, drop_drop. apply no_region_at_take, Hgap. lia.
      * rewrite drop_ge by (rewrite length_take; lia).
        intros [[op cl] least] Hp (inner & _ & rest & E).
        unfold math_delimiters in Hp.
        repeat (apply elem_of_cons in Hp as [[= -> -> ->]|Hp]); try discriminate E.
        by apply elem_of_nil in Hp.
    + simpl. unfold slice. replace (st + n - st) with n by lia.
      apply region_at_take in Hm as [Hm Hlen]. by rewrite Hlen.
Qed.

(** ** The normalizer: protected regions and plain spans *)


(** The pair [\(...\)] protects what it encloses. *)
Example paren_region_kept :
  finditer (py "see \(a--b\) and c--d") = [(4, 12)]
  /\ normalize_tex_like (py "see \(a--b\) and c--d")
     = py "see \(a--b\) and c" ++ [EN_DASH] ++ py "d".
Proof. split; vm_compute; reflexivity. Qed.

(** The four pairs in one text; [$$...$$] is preferred to [$...$]. *)
Example four_pairs :
  spans (py "\(a\)~\[b\]~$$c$$~$d$")
  = [ Plain []; Math (py "\(a\)"); Plain (py "~"); Math (py "\[b\]");
      Plain (py "~"); Math (py "$$c$$"); Plain (py "~"); Math (py "$d$");
      Plain [] ].
Proof. vm_compute. reflexivity. Qed.

Example math_kept :
  normalize_tex_like (py "rate $k\,\sigma$ here") = py "rate $k\,\sigma$ here".
Proof. vm_compute. reflexivity. Qed.

(** The dot of the pattern matches a line feed as well ([re.DOTALL]). *)
Example math_across_lines :
  finditer (py "a $x" ++ [10%N] ++ py "--y$ b") = [(2, 9)]
  /\ normalize_tex_like (py "a $x" ++ [10%N] ++ py "--y$ b")
     = py "a $x" ++ [10%N] ++ py "--y$ b".
Proof. split; vm_compute; reflexivity. Qed.

Example dashes_outside_math :
  normalize_tex_like (py "lead--time") = py "lead" ++ [EN_DASH] ++ py "time".
Proof. vm_compute. reflexivity. Qed.

Example tilde_and_ampersand :
  normalize_tex_like (py "x~y \& z") = py "x" ++ [NBSP] ++ py "y & z".
Proof. vm_compute. reflexivity. Qed.

Lemma apply_replacements_table (chunk : str) :
  apply_replacements chunk = table_rewrite chunk.
Proof. reflexivity. Qed.

(** C2. Every plain span is rewritten by the twelve rules of the table, in
    the order of the table, each rule on the whole span and on the output
    of the rules before it; [---] becomes an em dash, which the rule for
    [--] run first would prevent; the example of the specification. *)
Theorem C2_rules_in_table_order :
  (forall s, normalize_tex_like s = concat (map (emit table_rewrite) (spans s)))
  /\ (forall chunk, apply_replacements chunk = table_rewrite chunk)
  /\ normalize_tex_like (py "---") = [EM_DASH]
  /\ rule_em_dash (rule_en_dash (py "---")) = [EN_DASH] ++ py "-"
  /\ normalize_tex_like (py "The ``smooth'' flow -- v2")
     = py "The " ++ [LDQUO] ++ py "smooth" ++ [RDQUO] ++ py " flow "
       ++ [EN_DASH] ++ py " v2".
Proof.
  split_and!.
  - intros s. rewrite normalize_spans. f_equal.
  - apply apply_replacements_table.
  - vm_compute. reflexivity.
  - vm_compute. reflexivity.
  - vm_compute. reflexivity.
Qed.

(** ** Strings without source patterns *)

(** No pattern of the table matches the empty string. *)
Lemma tex_patterns_nonempty (pat : pattern) (repl s : str) (n : nat) :
  (pat, repl) ∈ _tex_replacements -> pat_match pat s = Some n -> 1 <= n.
Proof.
  intros Hin. unfold _tex_replacements in Hin.
  repeat (apply elem_of_cons in Hin as [[= -> ->]|Hin]);
    [ .. | by apply elem_of_nil in Hin ];
    unfold pat_match;
    match goal with |- context [startswith ?p s] => destruct (startswith p s) end;
    intros [= <-]; simpl; lia.
Qed.

Lemma sub_from_absent (pat : pattern) (repl t : str) :
  contains (pattern_literal pat) t = false -> sub_from pat repl 0 t = t.
Proof.
  induction t as [|c t IH]; [done|]. intros H. simpl in H.
  apply orb_false_iff in H as [H1 H2]. cbn [sub_from].
  assert (pat_match pat (c :: t) = None) as ->.
  { destruct pat; simpl in *; by rewrite H1. }
  by rewrite IH.
Qed.

Lemma fold_sub_absent (rules : list (pattern * str)) (t : str) :
  Forall (fun pr => contains (pattern_literal (fst pr)) t = false) rules ->
  fold_left (fun chunk pr => sub (fst pr) (snd pr) chunk) rules t = t.
Proof.
  induction 1 as [|pr rules H _ IH]; [done|].
  simpl. unfold sub at 2. by rewrite (sub_from_absent _ _ _ H).
Qed.

Lemma apply_replacements_absent (t : str) :
  Forall (fun p => contains p t = false) source_patterns ->
  apply_replacements t = t.
Proof.
  intros H. apply fold_sub_absent.
  change source_patterns
    with (map (fun pr => pattern_literal (fst pr)) _tex_replacements) in H.
  by apply Forall_map in H.
Qed.

Lemma spans_from_pieces (s : str) (pos : nat) (ms : list (nat * nat)) :
  Forall (fun sp => exists a b, raw sp = take b (drop a s)) (spans_from s pos ms).
Proof.
  revert pos; induction ms as [|[m_start m_end] ms IH]; intros pos.
  - repeat constructor. exists pos, (length (drop pos s)). simpl.
    by rewrite take_ge.
  - cbn [spans_from]. repeat constructor; [| |apply IH]; simpl; unfold slice; eauto.
Qed.

(** C9. A string that contains none of the twelve source patterns is
    returned unchanged, so normalizing it twice is normalizing it once. *)
Theorem C9_no_pattern_unchanged (s : str) :
  Forall (fun p => contains p s = false) source_patterns ->
  normalize_tex_like s = s
  /\ normalize_tex_like (normalize_tex_like s) = normalize_tex_like s.
Proof.
  intros H.
  assert (E : normalize_tex_like s = s); [|by rewrite !E].
  pose proof (Scan_partition _ _ _ (finditer_Scan s)) as Hp.
  rewrite drop_0 in Hp. fold (spans s) in Hp.
  rewrite normalize_spans. rewrite <- Hp at 2. f_equal. apply map_ext_in. intros sp Hin.
  pose proof (spans_from_pieces s 0 (finditer s)) as Hs.
  rewrite Forall_forall in Hs. destruct (Hs sp) as (a & b & Hab).
  { by apply list_elem_of_In. }
  destruct sp as [t|t]; [|done]. simpl in *. subst t.
  apply apply_replacements_absent. eapply Forall_impl; [exact H|].
  intros p Hp'. simpl in Hp'. by apply contains_false_take, contains_false_drop.
Qed.

Lemma C9_no_pattern_unchanged_witness :
  normalize_tex_like (py "A - b $x^2$ \cite ' `")
  = py "A - b $x^2$ \cite ' `"
  /\ normalize_tex_like (normalize_tex_like (py "A - b $x^2$ \cite ' `"))
     = normalize_tex_like (py "A - b $x^2$ \cite ' `").
Proof.
  apply (C9_no_pattern_unchanged (py "A - b $x^2$ \cite ' `")).
  repeat constructor.
Defined.

(** ** Unterminated delimiters *)

Lemma Scan_elem (s : str) (pos : nat) (ms : list (nat * nat)) (st en : nat) :
  Scan s pos ms -> (st, en) ∈ ms ->
  exists n, en = st + n /\ math_match (drop st s) = Some n.
Proof.
  induction 1 as [pos Hall | pos st' n ms Hle Hgap Hm Hrest IH]; intros Hin.
  - by apply elem_of_nil in Hin.
  - apply elem_of_cons in Hin as [[= -> ->]|Hin]; [eauto | by apply IH].
Qed.

Lemma finditer_elem (s : str) (st en : nat) :
  (st, en) ∈ finditer s ->
  exists n, en = st + n /\ math_match (drop st s) = Some n.
Proof. apply Scan_elem with (pos := 0), finditer_Scan. Qed.

Lemma no_match_spans (s : str) :
  finditer s = [] -> normalize_tex_like s = apply_replacements s.
Proof.
  intros H. rewrite normalize_spans. unfold spans. rewrite H. simpl.
  by rewrite app_nil_r.
Qed.

(** The match of [_MATH_RE] at an opening delimiter that nothing closes:
    none, except that [$$] is matched by the alternative [$.*?$] with nothing
    between the dollars. *)
Lemma math_match_unterminated (d : delim) (rest : str) :
  contains (closer d) (drop (min_inner d) rest) = false ->
  math_match (opener d ++ rest) = match d with DDollar => Some 2 | _ => None end.
Proof.
  intros H. pose proof H as F. apply find_lazy_None in F.
  destruct d; simpl in H, F; unfold math_match, first_alt, match_alt; simpl;
    rewrite ?drop_0 in *.
  - by rewrite F.
  - by rewrite F.
  - by rewrite F.
  - rewrite F.
    pose proof (contains_false_startswith _ _ 0 H) as E. rewrite drop_0 in E.
    destruct rest as [|c rest]; [done|]. simpl in E |- *.
    apply andb_false_iff in E as [E|E]; [by rewrite E | done].
Qed.

Lemma slice_app (s : str) (a b c : nat) :
  a <= b <= c -> slice s a b ++ slice s b c = slice s a c.
Proof.
  intros H. unfold slice.
  replace (drop b s) with (drop (b - a) (drop a s))
    by (rewrite drop_drop; f_equal; lia).
  rewrite take_take_drop. f_equal. lia.
Qed.

Lemma slice_to_end (s : str) (a : nat) : slice s a (length s) = drop a s.
Proof. unfold slice. apply take_ge. rewrite length_drop. lia. Qed.

Lemma slice_drop (s : str) (a b : nat) :
  a <= b -> slice s a b ++ drop b s = drop a s.
Proof.
  intros H. unfold slice.
  replace (drop b s) with (drop (b - a) (drop a s))
    by (rewrite drop_drop; f_equal; lia).
  apply take_drop.
Qed.

(** A match of [_MATH_RE] begins with a backslash or a dollar sign. *)
Lemma math_match_head (u : str) (n : nat) :
  math_match u = Some n -> exists c t, u = c :: t /\ (c = 92%N \/ c = 36%N).
Proof.
  intros H. apply first_alt_Some in H as [d H]. unfold match_alt in H.
  destruct (startswith (opener d) u) eqn:E; [|done].
  apply startswith_iff in E as [r ->].
  destruct d; simpl; eauto.
Qed.

(** Where the scan stands at a position that no earlier match covers: in
    a match that begins there, or in the plain text that runs to the next
    match or to the end. *)
Lemma Scan_at (s : str) (pos : nat) (ms : list (nat * nat)) (p : nat) :
  Scan s pos ms -> pos <= p -> p < length s ->
  (forall st en, (st, en) ∈ ms -> st < p -> en <= p) ->
  match math_match (drop p s) with
  | Some n =>
      (p, p + n) ∈ ms
      /\ exists sps1 sps2,
           spans_from s pos ms = sps1 ++ Math (slice s p (p + n)) :: sps2
           /\ concat (map raw sps1) = slice s pos p
           /\ concat (map raw sps2) = drop (p + n) s
  | None =>
      exists a b sps1 sps2,
        spans_from s pos ms = sps1 ++ Plain (slice s a b) :: sps2
        /\ concat (map raw sps1) = slice s pos a
        /\ concat (map raw sps2) = drop b s
        /\ pos <= a /\ a <= p /\ p < b /\ b <= length s
        /\ (b = length s \/ is_Some (math_match (drop b s)))
        /\ (sps2 = [] \/ exists m sps', sps2 = Math m :: sps')
  end.
Proof.
  induction 1 as [pos Hall | pos st n ms Hle Hgap Hm Hrest IH]; intros Hp Hlen Hcov.
  - rewrite (Hall p Hp). exists pos, (length s), [], [].
    rewrite slice_to_end, drop_all, (slice_empty s pos pos) by lia.
    split_and!; try done; try lia; by left.
  - pose proof (math_match_Some _ _ Hm) as [_ Hn]. rewrite length_drop in Hn.
    pose proof (Scan_partition _ _ _ Hrest) as Hpart.
    destruct (Nat.lt_trichotomy p st) as [Hlt|[->|Hgt]].
    + rewrite (Hgap p) by lia.
      exists pos, st, [], (Math (slice s st (st + n)) :: spans_from s (st + n) ms).
      cbn [spans_from map concat raw app]. rewrite Hpart, (slice_empty s pos pos) by lia.
      split_and!; try done; try lia.
      * apply slice_drop. lia.
      * right. by rewrite Hm.
      * right. eauto.
    + rewrite Hm. split; [left|].
      exists [Plain (slice s pos st)], (spans_from s (st + n) ms).
      cbn [spans_from map concat raw app]. by rewrite app_nil_r.
    + assert (Hen : st + n <= p) by (apply (Hcov st); [left | done]).
      assert (Hcov' : forall st' en', (st', en') ∈ ms -> st' < p -> en' <= p).
      { intros st' en' Hin. apply Hcov. by right. }
      specialize (IH Hen Hlen Hcov').
      assert (Hpre : forall sps1 a, st + n <= a ->
                 concat (map raw sps1) = slice s (st + n) a ->
                 concat (map raw (Plain (slice s pos st) :: Math (slice s st (st + n)) :: sps1))
                 = slice s pos a).
      { intros sps1 a Ha E. cbn [map concat raw]. rewrite E.
        rewrite (slice_app s st (st + n) a) by lia. apply slice_app. lia. }
      destruct (math_match (drop p s)) as [k|].
      * destruct IH as (Hin & sps1 & sps2 & E & H1 & H2). split; [by right|].
        exists (Plain (slice s pos st) :: Math (slice s st (st + n)) :: sps1), sps2.
        cbn [spans_from]. rewrite E. split_and!; [done | by apply Hpre | done].
      * destruct IH as (a & b & sps1 & sps2 & E & H1 & H2 & Ha & Hb & Hc & Hd & He & Hf).
        exists a, b, (Plain (slice s pos st) :: Math (slice s st (st + n)) :: sps1), sps2.
        cbn [spans_from]. rewrite E.
        split_and!; [done | by apply Hpre | done | lia | done..].
Qed.

Lemma emit_spans_app (sps1 sps2 : list span) (sp : span) (s : str) :
  spans s = sps1 ++ sp :: sps2 ->
  normalize_tex_like s
  = concat (map (emit apply_replacements) sps1)
    ++ emit apply_replacements sp
    ++ concat (map (emit apply_replacements) sps2).
Proof.
  intros E. by rewrite normalize_spans, E, map_app, concat_app.
Qed.

(** C7 (amended). Of an opening delimiter that no closing delimiter of its
    kind follows: no protected region begins at it, except that an
    unclosed [$$] is matched as the region [$$] of the pair [$...$] with
    nothing inside. When it does not lie inside a protected region that
    begins before it, an unclosed [\(], [\[] or [$] stands in a plain span
    that runs from the end of the region before it (or from the start of
    the text) to the next region (or to the end of the text), and this
    span, opener included, is rewritten by the rules; an unclosed [$$] is
    then the math span [$$], kept as it is. The normalizer is a total
    function: it returns a string on every input. *)
Theorem C7_unterminated_opener (s pre rest : str) (d : delim) :
  s = pre ++ opener d ++ rest ->
  contains (closer d) (drop (min_inner d) rest) = false ->
  (forall en, (length pre, en) ∈ finditer s ->
              d = DDollar /\ en = length pre + 2)
  /\ ((forall st en, (st, en) ∈ finditer s -> st < length pre -> en <= length pre) ->
      match d with
      | DDollar =>
          (length pre, length pre + 2) ∈ finditer s
          /\ exists sps1 sps2,
               spans s = sps1 ++ Math (py "$$") :: sps2
               /\ pre = concat (map raw sps1)
               /\ rest = concat (map raw sps2)
               /\ normalize_tex_like s
                  = concat (map (emit apply_replacements) sps1)
                    ++ py "$$"
                    ++ concat (map (emit apply_replacements) sps2)
      | _ =>
          exists sps1 u v sps2,
            spans s = sps1 ++ Plain (u ++ opener d ++ v) :: sps2
            /\ pre = concat (map raw sps1) ++ u
            /\ rest = v ++ concat (map raw sps2)
            /\ (sps2 = [] \/ exists m sps', sps2 = Math m :: sps')
            /\ normalize_tex_like s
               = concat (map (emit apply_replacements) sps1)
                 ++ apply_replacements (u ++ opener d ++ v)
                 ++ concat (map (emit apply_replacements) sps2)
      end).
Proof.
  intros -> H.
  pose proof (math_match_unterminated _ _ H) as Hm.
  set (s := pre ++ opener d ++ rest) in *.
  assert (Hd : drop (length pre) s = opener d ++ rest) by apply drop_app_length.
  split.
  { intros en Hin. apply finditer_elem in Hin as (n & -> & Hn).
    rewrite Hd, Hm in Hn. destruct d; try done. by injection Hn as <-. }
  intros Hcov.
  assert (Hlen : length pre < length s).
  { unfold s. rewrite !length_app. destruct (delim_lengths d). lia. }
  pose proof (Scan_at s 0 (finditer s) (length pre) (finditer_Scan s)
                (Nat.le_0_l _) Hlen Hcov) as Hat.
  rewrite Hd, Hm in Hat. fold (spans s) in Hat.
  assert (Hplain :
    d <> DDollar ->
    (exists a b sps1 sps2,
        spans s = sps1 ++ Plain (slice s a b) :: sps2
        /\ concat (map raw sps1) = slice s 0 a
        /\ concat (map raw sps2) = drop b s
        /\ 0 <= a /\ a <= length pre /\ length pre < b /\ b <= length s
        /\ (b = length s \/ is_Some (math_match (drop b s)))
        /\ (sps2 = [] \/ exists m sps', sps2 = Math m :: sps')) ->
    exists sps1 u v sps2,
      spans s = sps1 ++ Plain (u ++ opener d ++ v) :: sps2
      /\ pre = concat (map raw sps1) ++ u
      /\ rest = v ++ concat (map raw sps2)
      /\ (sps2 = [] \/ exists m sps', sps2 = Math m :: sps')
      /\ normalize_tex_like s
         = concat (map (emit apply_replacements) sps1)
           ++ apply_replacements (u ++ opener d ++ v)
           ++ concat (map (emit apply_replacements) sps2)).
  { intros Hnd (a & b & sps1 & sps2 & E & H1 & H2 & _ & Ha & Hb & Hbl & Hnext & Hs2).
    assert (Hb' : length pre + length (opener d) <= b).
    { destruct Hnext as [->|[n Hn]].
      - unfold s. rewrite !length_app. lia.
      - destruct (decide (length pre + length (opener d) <= b)) as [|Hlt]; [done|].
        exfalso. assert (b = length pre + 1 /\ length (opener d) = 2) as [-> Ho].
        { destruct d; simpl in *; lia. }
        apply math_match_head in Hn as (c & t & Hc & Hor).
        rewrite <- drop_drop, Hd in Hc.
        destruct d; try done; simpl in Hc; injection Hc as <- _;
          by destruct Hor. }
    set (k := b - length pre - length (opener d)).
    assert (Eslice : slice s a b = drop a pre ++ opener d ++ take k rest).
    { unfold slice, s. rewrite drop_app_le by done.
      rewrite take_app_ge by (rewrite length_drop; lia).
      f_equal. rewrite length_drop.
      rewrite take_app_ge by lia. f_equal. f_equal. unfold k. lia. }
    exists sps1, (drop a pre), (take k rest), sps2.
    assert (E' : spans s = sps1 ++ Plain (drop a pre ++ opener d ++ take k rest) :: sps2)
      by (by rewrite <- Eslice).
    split_and!; [done | | | done | by apply (emit_spans_app _ _ _ _ E')].
    - rewrite H1. unfold slice, s. rewrite drop_0, Nat.sub_0_r.
      rewrite take_app_le by done. by rewrite take_drop.
    - rewrite H2. unfold s.
      rewrite drop_app_ge by lia. rewrite drop_app_ge by lia.
      replace (b - length pre - length (opener d)) with k by done.
      by rewrite take_drop. }
  destruct d; try (apply Hplain; [done | exact Hat]).
  destruct Hat as (Hin & sps1 & sps2 & E & H1 & H2). split; [done|].
  assert (Em : slice s (length pre) (length pre + 2) = py "$$").
  { unfold slice. rewrite Hd. replace (length pre + 2 - length pre) with 2 by lia.
    reflexivity. }
  rewrite Em in E. exists sps1, sps2. split_and!.
  - done.
  - rewrite H1. unfold slice, s. rewrite drop_0, Nat.sub_0_r. by rewrite take_app_length.
  - rewrite H2. unfold s. rewrite drop_app_ge by lia.
    replace (length pre + 2 - length pre) with 2 by lia. reflexivity.
  - apply (emit_spans_app _ _ _ _ E).
Qed.

Lemma C7_unterminated_opener_witness :
  (forall en, (length (py "$x$ "), en) ∈ finditer (py "$x$ \( a -- b") ->
              Paren = DDollar /\ en = length (py "$x$ ") + 2)
  /\ exists sps1 u v sps2,
       spans (py "$x$ \( a -- b") = sps1 ++ Plain (u ++ opener Paren ++ v) :: sps2
       /\ py "$x$ " = concat (map raw sps1) ++ u
       /\ py " a -- b" = v ++ concat (map raw sps2)
       /\ (sps2 = [] \/ exists m sps', sps2 = Math m :: sps')
       /\ normalize_tex_like (py "$x$ \( a -- b")
          = concat (map (emit apply_replacements) sps1)
            ++ apply_replacements (u ++ opener Paren ++ v)
            ++ concat (map (emit apply_replacements) sps2).
Proof.
  destruct (C7_unterminated_opener (py "$x$ \( a -- b") (py "$x$ ") (py " a -- b") Paren)
    as [Hstart Hplain].
  - reflexivity.
  - vm_compute. reflexivity.
  - split; [exact Hstart|]. apply Hplain.
    intros st en Hin Hlt. vm_compute in Hin.
    apply list_elem_of_singleton in Hin. injection Hin as -> ->. simpl. lia.
Defined.

Example unterminated_paren :
  finditer (py "a \( b -- c") = []
  /\ normalize_tex_like (py "a \( b -- c") = py "a \( b " ++ [EN_DASH] ++ py " c".
Proof. split; vm_compute; reflexivity. Qed.

(** An unclosed [\(] after a protected region: the text from the end of
    the region on is one plain span, rewritten with its opener. *)
Example unterminated_after_region :
  finditer (py "$x$ \( a -- b") = [(0, 3)]
  /\ spans (py "$x$ \( a -- b") = [Plain []; Math (py "$x$"); Plain (py " \( a -- b")]
  /\ normalize_tex_like (py "$x$ \( a -- b") = py "$x$ \( a " ++ [EN_DASH] ++ py " b".
Proof. split_and!; vm_compute; reflexivity. Qed.

(** An unclosed [\(] before a protected region of another pair. *)
Example unterminated_before_region :
  spans (py "\( a--b $x--y$ c--d")
  = [Plain (py "\( a--b "); Math (py "$x--y$"); Plain (py " c--d")]
  /\ normalize_tex_like (py "\( a--b $x--y$ c--d")
     = py "\( a" ++ [EN_DASH] ++ py "b $x--y$ c" ++ [EN_DASH] ++ py "d".
Proof. split; vm_compute; reflexivity. Qed.

Example unterminated_ddollar :
  finditer (py "$$a") = [(0, 2)]
  /\ spans (py "a--b $$ c--d") = [Plain (py "a--b "); Math (py "$$"); Plain (py " c--d")]
  /\ normalize_tex_like (py "a--b $$ c--d")
     = py "a" ++ [EN_DASH] ++ py "b $$ c" ++ [EN_DASH] ++ py "d".
Proof. split_and!; vm_compute; reflexivity. Qed.

(** C7 as stated fails: in [$a\(--$] nothing closes the [\(], and yet it
    lies inside the protected region [$...$], so that the dashes after it
    are kept as they are; and in [$$a] nothing closes the [$$], and yet a
    protected region starts at it. *)
Lemma C7_unterminated_inside_region :
  ~ unterminated_is_plain /\ ~ unterminated_starts_no_region.
Proof.
  split; intros H.
  - apply (H (py "$a\(--$") (py "$a") (py "--$") Paren eq_refl eq_refl 0 7).
    + vm_compute. left.
    + simpl. lia.
  - apply (H (py "$$a") [] (py "a") DDollar eq_refl eq_refl 2).
    vm_compute. left.
Qed.

Example unterminated_inside_region :
  normalize_tex_like (py "$a\(--$") = py "$a\(--$".
Proof. vm_compute. reflexivity. Qed.

(** ** The parser: identifiers *)

Lemma span_while_spec (f : N -> bool) (s : str) :
  Forall (fun c => f c = true) (span_while f s)
  /\ exists rest, s = span_while f s ++ rest
                  /\ match rest with c :: _ => f c = false | [] => True end.
Proof.
  induction s as [|c s (IH1 & rest & IH2 & IH3)]; simpl.
  - split; [constructor | by exists []].
  - destruct (f c) eqn:E.
    + split; [by constructor|]. exists rest. split; [simpl; by f_equal | done].
    + split; [constructor|]. by exists (c :: s).
Qed.

Lemma forallb_Forall_true (f : N -> bool) (l : str) :
  forallb f l = true -> Forall (fun c => f c = true) l.
Proof. rewrite forallb_forall, Forall_forall. intros H x Hx. apply H. by apply list_elem_of_In. Qed.

Lemma select_one_Some (sel : node -> bool) (n a : node) :
  select_one sel n = Some a -> sel a = true /\ a ∈ descendants n.
Proof.
  unfold select_one. intros H. apply find_some in H as [H1 H2].
  split; [done | by apply list_elem_of_In].
Qed.

Lemma abs_link_href (a : node) :
  is_abs_link a = true ->
  exists href, get a (py "href") = Some href /\ startswith (py "/abs/") href = true.
Proof.
  unfold is_abs_link. intros H. apply andb_true_iff in H as [_ H].
  destruct (get a (py "href")) as [href|]; [eauto | done].
Qed.

Section ParserFacts.

Variable isdecimal : N -> bool.

Lemma version_suffix_spec (s : str) :
  (version_suffix isdecimal s = []
   \/ exists ds, version_suffix isdecimal s = py "v" ++ ds /\ ds <> []
                 /\ Forall (fun c => isdecimal c = true) ds)
  /\ exists rest, s = version_suffix isdecimal s ++ rest.
Proof.
  unfold version_suffix. destruct s as [|c s]; [split; [by left | by exists []]|].
  destruct (c =? 118)%N eqn:E; [|split; [by left | by exists (c :: s)]].
  apply N.eqb_eq in E as ->.
  destruct (span_while_spec isdecimal s) as (H1 & rest & H2 & _).
  destruct (span_while isdecimal s) as [|d ds] eqn:Es.
  - split; [by left | by exists (118%N :: s)].
  - split; [right; by exists (d :: ds) |].
    exists rest. simpl. by rewrite H2 at 1.
Qed.

Lemma id_match_Some (s g : str) :
  id_match isdecimal s = Some g ->
  arxiv_id isdecimal g /\ exists post, s = py "/abs/" ++ g ++ post.
Proof.
  unfold id_match. destruct (startswith (py "/abs/") s) eqn:E; [|done].
  apply startswith_iff in E as [r ->].
  change (drop 5 (py "/abs/" ++ r)) with r.
  destruct r as [|c1 [|c2 [|c3 [|c4 [|c5 [|c6 [|c7 [|c8 [|c9 [|c10 r]]]]]]]]]];
    try (simpl; rewrite ?andb_false_r; done).
  cbn [firstn skipn length Nat.eqb andb]. rewrite take_0, drop_0.
  cbn [length Nat.eqb andb]. rewrite andb_true_r.
  destruct (forallb isdecimal [c1; c2; c3; c4]) eqn:E4; [|done].
  destruct (startswith (py ".") (c5 :: c6 :: c7 :: c8 :: c9 :: c10 :: r)) eqn:Ed; [|done].
  destruct (forallb isdecimal [c6; c7; c8; c9; c10]) eqn:E5; [|done].
  simpl. intros [= <-].
  apply startswith_iff in Ed as [r0 Hr0].
  change (py "." ++ r0) with (46%N :: r0) in Hr0. injection Hr0 as -> _.
  destruct (version_suffix_spec r) as [Hv [post Hp]].
  split.
  - exists [c1; c2; c3; c4], [c6; c7; c8; c9; c10], (version_suffix isdecimal r).
    split_and!; try done; by apply forallb_Forall_true.
  - exists post. simpl. by rewrite <- Hp.
Qed.

Lemma search_id_Some (s g : str) :
  search_id isdecimal s = Some g ->
  arxiv_id isdecimal g /\ exists pre post, s = pre ++ py "/abs/" ++ g ++ post.
Proof.
  induction s as [|c s IH]; cbn [search_id].
  - destruct (id_match isdecimal []) eqn:E; [|done]. intros [= ->].
    apply id_match_Some in E as [H1 [post H2]]. split; [done | by exists [], post].
  - destruct (id_match isdecimal (c :: s)) eqn:E.
    + intros [= ->]. apply id_match_Some in E as [H1 [post H2]].
      split; [done | by exists [], post].
    + intros H. apply IH in H as [H1 (pre & post & ->)].
      split; [done | by exists (c :: pre), post].
Qed.

Lemma arxiv_id_nonempty (x : str) : arxiv_id isdecimal x -> x <> [].
Proof.
  intros (d4 & d5 & v & -> & H4 & _). destruct d4; [done | done].
Qed.

(** ** The parser: pairs *)

(** No pair raises: the link that [select_one] returns has a target. *)
Lemma parse_pair_Ok (dt dd : node) :
  parse_pair isdecimal dt dd = Ok (entry_of_pair isdecimal dt dd).
Proof.
  unfold entry_of_pair, parse_pair.
  destruct (select_one is_abs_link dt) as [a|] eqn:Ea; [|done].
  apply select_one_Some in Ea as [Ha _].
  apply abs_link_href in Ha as (href & Hg & _).
  unfold getitem. rewrite Hg. simpl.
  by destruct (search_id isdecimal href).
Qed.

(** What an entry says about the pair it comes from. *)
Lemma entry_of_pair_Some (dt dd : node) (e : Entry) :
  entry_of_pair isdecimal dt dd = Some e ->
  exists a href,
    select_one is_abs_link dt = Some a
    /\ get a (py "href") = Some href
    /\ startswith (py "/abs/") href = true
    /\ search_id isdecimal href = Some (id e)
    /\ abs_url e = BASE ++ href
    /\ title e = normalize_tex_like (extract_title dd)
    /\ abstract e = normalize_tex_like (extract_abstract dd)
    /\ codes e = extract_codes dd.
Proof.
  unfold entry_of_pair, parse_pair.
  destruct (select_one is_abs_link dt) as [a|] eqn:Ea; [|done].
  pose proof (select_one_Some _ _ _ Ea) as [Ha _].
  apply abs_link_href in Ha as (href & Hg & Hs).
  unfold getitem. rewrite Hg. simpl.
  destruct (search_id isdecimal href) as [arxid|] eqn:Es; [|done].
  simpl. intros [= <-]. exists a, href. by simpl.
Qed.

Lemma for_pairs_spec (pairs : list (node * node)) (entries : list Entry) :
  for_pairs isdecimal pairs entries
  = Ok (entries ++ omap (fun p => entry_of_pair isdecimal (fst p) (snd p)) pairs).
Proof.
  revert entries; induction pairs as [|[dt dd] pairs IH]; intros entries.
  - simpl. by rewrite app_nil_r.
  - cbn [for_pairs]. rewrite parse_pair_Ok. cbn [bind]. rewrite IH.
    cbn [omap list_omap fst snd].
    destruct (entry_of_pair isdecimal dt dd); [by rewrite <- app_assoc | done].
Qed.

Lemma parse_list_spec (soup : node) :
  parse_list isdecimal soup
  = Ok (omap (fun p => entry_of_pair isdecimal (fst p) (snd p))
          (zip (head_blocks soup) (body_blocks soup))).
Proof. unfold parse_list. by rewrite for_pairs_spec. Qed.

End ParserFacts.

(** ** The parser: entries and pairs *)

Lemma length_omap_filter {A B : Type} (f : A -> option B) (g : A -> bool) (l : list A) :
  (forall x, is_Some (f x) <-> g x = true) ->
  length (omap f l) = length (List.filter g l).
Proof.
  intros H. induction l as [|x l IH]; [done|]. simpl.
  specialize (H x).
  destruct (f x) as [y|], (g x); simpl; try exact IH; try (f_equal; exact IH).
  - destruct H as [H _]. by specialize (H (ex_intro _ y eq_refl)).
  - destruct H as [_ H]. by destruct (H eq_refl) as [? ?].
Qed.

Lemma zip_elem_l {A B : Type} (l : list A) (k : list B) (x : A) (y : B) :
  (x, y) ∈ zip l k -> x ∈ l.
Proof.
  revert k; induction l as [|a l IH]; intros [|b k] H; simpl in H;
    try (by apply elem_of_nil in H).
  apply elem_of_cons in H as [[= -> ->]|H]; [left | right; by eapply IH].
Qed.

Lemma length_filter_le {A : Type} (g : A -> bool) (l : list A) :
  length (List.filter g l) <= length l.
Proof. induction l as [|x l IH]; simpl; [lia|]. destruct (g x); simpl; lia. Qed.

Section ParserClaims.

Variable isdecimal : N -> bool.

Lemma entry_of_pair_has_id_link (dt dd : node) :
  is_Some (entry_of_pair isdecimal dt dd) <-> has_id_link isdecimal dt = true.
Proof.
  unfold entry_of_pair, parse_pair, has_id_link.
  destruct (select_one is_abs_link dt) as [a|] eqn:Ea; [|by split; [intros [x Hx]|]].
  pose proof (select_one_Some _ _ _ Ea) as [Ha _].
  apply abs_link_href in Ha as (href & Hg & _).
  unfold getitem. rewrite Hg. simpl.
  destruct (search_id isdecimal href); simpl; split;
    first [done | by intros [x Hx] | eauto].
Qed.

(** An identifier link is the first link to [/abs/...] of the head block,
    when the pattern of identifiers is found in its target. *)
Lemma has_id_link_spec (dt : node) :
  has_id_link isdecimal dt = true
  <-> exists a href,
        select_one is_abs_link dt = Some a
        /\ get a (py "href") = Some href
        /\ is_Some (search_id isdecimal href).
Proof.
  unfold has_id_link. destruct (select_one is_abs_link dt) as [a|] eqn:Ea.
  - pose proof (select_one_Some _ _ _ Ea) as [Ha _].
    apply abs_link_href in Ha as (href & Hg & _). rewrite Hg. simpl. split.
    + intros H. exists a, href. split_and!; [done | done |].
      destruct (search_id isdecimal href); [eauto | done].
    + intros (a' & href' & [= <-] & Hg' & [x Hx]).
      rewrite Hg in Hg'. injection Hg' as <-. by rewrite Hx.
  - split; [done | by intros (a & href & ? & _)].
Qed.

(** C3. The parser returns, without raising; every entry has a
    non-empty [id] of the form [\d{4}\.\d{5}(v\d+)?] that stands after
    [/abs/] in the target of a link of a head block; and a pair whose
    head block has no such link, or whose link target holds no
    identifier after [/abs/], contributes no entry. *)
Theorem C3_entries_have_ids (soup : node) :
  exists entries,
    parse_list isdecimal soup = Ok entries
    /\ entries = omap (fun p => entry_of_pair isdecimal (fst p) (snd p))
                   (zip (head_blocks soup) (body_blocks soup))
    /\ Forall (fun e =>
                 id e <> [] /\ arxiv_id isdecimal (id e)
                 /\ exists dt a href,
                     dt ∈ head_blocks soup
                     /\ select_one is_abs_link dt = Some a
                     /\ get a (py "href") = Some href
                     /\ exists pre post, href = pre ++ py "/abs/" ++ id e ++ post)
         entries
    /\ (forall dt dd,
           select_one is_abs_link dt = None ->
           entry_of_pair isdecimal dt dd = None)
    /\ (forall dt dd a href,
           select_one is_abs_link dt = Some a ->
           get a (py "href") = Some href ->
           (forall pre x post, href = pre ++ py "/abs/" ++ x ++ post ->
                               ~ arxiv_id isdecimal x) ->
           entry_of_pair isdecimal dt dd = None).
Proof.
  eexists. split; [apply parse_list_spec|]. split; [done|]. split_and!.
  - apply Forall_forall. intros e He.
    apply list_elem_of_omap in He as ([dt dd] & Hp & He). simpl in He.
    apply entry_of_pair_Some in He as (a & href & Ha & Hg & Hsw & Hs & Hrest).
    apply search_id_Some in Hs as [Hid Hsub].
    split_and!; [by eapply arxiv_id_nonempty | done |].
    exists dt, a, href. split_and!; try done.
    by apply zip_elem_l in Hp.
  - intros dt dd H. unfold entry_of_pair, parse_pair. by rewrite H.
  - intros dt dd a href Ha Hg Hno.
    destruct (entry_of_pair isdecimal dt dd) as [e|] eqn:E; [|done].
    apply entry_of_pair_Some in E as (a' & href' & Ha' & Hg' & Hsw & Hs & Hrest).
    rewrite Ha in Ha'. injection Ha' as <-.
    rewrite Hg in Hg'. injection Hg' as <-.
    apply search_id_Some in Hs as [Hid (pre & post & Hsub)].
    by destruct (Hno pre (id e) post).
Qed.

(** C4 (amended). For every document, with [N] head blocks and [M] body
    blocks, the parser returns without raising, and its entries are, in
    the order of the pairs, those of the first [min N M] pairs whose head
    block has an identifier link, that is, whose first link to [/abs/...]
    in document order has a target in which the pattern of identifiers is
    found (later links of the head block are not looked at): at most
    [min N M] entries, and exactly [min N M] when each of these head blocks
    has an identifier link. *)
Theorem C4_entries_of_common_prefix (soup : node) :
  let pairs := zip (head_blocks soup) (body_blocks soup) in
  let n := min (length (head_blocks soup)) (length (body_blocks soup)) in
  exists entries,
    parse_list isdecimal soup = Ok entries
    /\ entries = omap (fun p => entry_of_pair isdecimal (fst p) (snd p)) pairs
    /\ length pairs = n
    /\ pairs = zip (take n (head_blocks soup)) (take n (body_blocks soup))
    /\ length entries
       = length (List.filter (fun p => has_id_link isdecimal (fst p)) pairs)
    /\ length entries <= n
    /\ (forallb (has_id_link isdecimal) (take n (head_blocks soup)) = true ->
        length entries = n)
    /\ (forall dt dd,
           is_Some (entry_of_pair isdecimal dt dd) <-> has_id_link isdecimal dt = true)
    /\ (forall dt,
           has_id_link isdecimal dt = true
           <-> exists a href,
                 select_one is_abs_link dt = Some a
                 /\ get a (py "href") = Some href
                 /\ is_Some (search_id isdecimal href)).
Proof.
  intros pairs n. eexists. split; [apply parse_list_spec|]. split; [done|].
  fold pairs.
  assert (Hn : length pairs = n) by apply length_zip_with.
  assert (Hp : pairs = zip (take n (head_blocks soup)) (take n (body_blocks soup))).
  { unfold pairs, n. generalize (head_blocks soup) (body_blocks soup).
    induction l as [|x l IH]; intros [|y l']; simpl; [done..|]. by rewrite <- IH. }
  assert (Hl : length (omap (fun p => entry_of_pair isdecimal (fst p) (snd p)) pairs)
               = length (List.filter (fun p => has_id_link isdecimal (fst p)) pairs)).
  { apply length_omap_filter. intros [dt dd]. apply entry_of_pair_has_id_link. }
  split_and!; try done.
  - rewrite Hl, <- Hn. apply length_filter_le.
  - intros Hall. rewrite Hl, <- Hn. f_equal.
    apply forallb_filter_id. apply forallb_forall. intros [dt dd] Hin.
    rewrite forallb_forall in Hall. apply Hall. simpl.
    rewrite Hp in Hin. apply list_elem_of_In in Hin.
    apply zip_elem_l in Hin. by apply list_elem_of_In.
  - apply entry_of_pair_has_id_link.
  - apply has_id_link_spec.
Qed.

(** C5 (amended). Every entry comes from a pair of the document, and its
    [abs_url] is [BASE] followed by the whole target of the first link to
    [/abs/...] of the head block of that pair, the very target in which
    its [id] is found; so where that target is [/abs/] followed by the
    [id] and nothing more, [abs_url] is [BASE], [/abs/] and the [id]. *)
Theorem C5_abs_url_from_link_target (soup : node) :
  exists entries,
    parse_list isdecimal soup = Ok entries
    /\ Forall (fun e =>
                 exists dt dd a href,
                   (dt, dd) ∈ zip (head_blocks soup) (body_blocks soup)
                   /\ entry_of_pair isdecimal dt dd = Some e
                   /\ select_one is_abs_link dt = Some a
                   /\ get a (py "href") = Some href
                   /\ abs_url e = BASE ++ href
                   /\ search_id isdecimal href = Some (id e)
                   /\ (href = py "/abs/" ++ id e ->
                       abs_url e = BASE ++ py "/abs/" ++ id e))
         entries.
Proof.
  eexists. split; [apply parse_list_spec|].
  apply Forall_forall. intros e He.
  apply list_elem_of_omap in He as ([dt dd] & Hp & He). simpl in He.
  pose proof (entry_of_pair_Some _ _ _ _ He)
    as (a & href & Ha & Hg & Hsw & Hs & Hu & Ht).
  exists dt, dd, a, href. split_and!; try done. by intros <-.
Qed.

End ParserClaims.

Example listing_same_id_entries :
  parse_list ascii_digit listing_same_id
  = Ok [ {| id := py "2401.12345"; title := py "Dust lanes"; abstract := [];
            abs_url := py "https://arxiv.org/abs/2401.12345";
            codes := {[ py "astro-ph.GA" ]} |};
         {| id := py "2401.12345"; title := py "Dust lanes"; abstract := [];
            abs_url := py "https://arxiv.org/abs/2401.12345?context=astro-ph";
            codes := {[ py "astro-ph.GA" ]} |} ].
Proof. vm_compute. reflexivity. Qed.

(** Only the first link to [/abs/...] of a head block counts: here it
    holds no identifier, and the pair gives no entry although the second
    link holds one. *)
Example two_links_first_counts :
  length (head_blocks listing_two_links) = 1
  /\ length (body_blocks listing_two_links) = 1
  /\ forallb (has_id_link ascii_digit) (head_blocks listing_two_links) = false
  /\ parse_list ascii_digit listing_two_links = Ok [].
Proof. split_and!; vm_compute; reflexivity. Qed.

(** ** The claims C4 and C5 as stated *)

(** C4 as stated fails: of two head blocks and one body block, the one
    pair has a head block without a link and is dropped, so the parser
    emits no entry, not [min 2 1]. *)
Lemma C4_pair_without_link_dropped :
  ~ exists isdecimal, emits_min_of_counts isdecimal.
Proof.
  intros [isdecimal H].
  destruct (H listing_without_link) as (entries & Hp & Hl).
  - vm_compute. lia.
  - vm_compute in Hp. injection Hp as <-. vm_compute in Hl. discriminate.
Qed.

Lemma parse_listing_same_id (isdecimal : N -> bool) :
  holds_ascii_digits isdecimal ->
  parse_list isdecimal listing_same_id
  = Ok [ {| id := py "2401.12345"; title := py "Dust lanes"; abstract := [];
            abs_url := py "https://arxiv.org/abs/2401.12345";
            codes := {[ py "astro-ph.GA" ]} |};
         {| id := py "2401.12345"; title := py "Dust lanes"; abstract := [];
            abs_url := py "https://arxiv.org/abs/2401.12345?context=astro-ph";
            codes := {[ py "astro-ph.GA" ]} |} ].
Proof.
  intros Hd. vm_compute. rewrite !Hd by reflexivity. vm_compute. reflexivity.
Qed.

(** C5 as stated fails: the targets [/abs/2401.12345] and
    [/abs/2401.12345?context=astro-ph] give two entries with the same [id]
    and different [abs_url]s. *)
Lemma C5_same_id_two_urls :
  ~ exists isdecimal,
      holds_ascii_digits isdecimal /\ abs_url_from_id_alone isdecimal.
Proof.
  intros (isdecimal & Hd & H).
  pose proof (parse_listing_same_id isdecimal Hd) as Hp.
  specialize (H _ _ _ _ _ _ Hp Hp (list_elem_of_here _ _)
                (list_elem_of_further _ _ _ (list_elem_of_here _ _)) eq_refl).
  vm_compute in H. discriminate H.
Qed.

(** ** The parser: titles *)

Lemma all_strings_strip (n : node) :
  _all_strings true n = List.filter nonempty (map strip (strings n)).
Proof.
  unfold _all_strings, strings. induction (descendants n) as [|d l IH]; [done|].
  cbn [flat_map]. rewrite IH, map_app, List.filter_app. f_equal.
  destruct d as [t| |]; try done. simpl. by destruct (strip t).
Qed.

Lemma replace_first_prefix (old new rest : str) :
  replace_first old new (old ++ rest) = new ++ rest.
Proof.
  destruct (old ++ rest) as [|c t] eqn:E; simpl; rewrite <- E;
    by rewrite startswith_app, drop_app_length.
Qed.

Lemma replace_first_absent (old new s : str) :
  contains old s = false -> replace_first old new s = s.
Proof.
  induction s as [|c s IH]; simpl; intros H;
    apply orb_false_iff in H as [-> H]; [done|]. by rewrite IH.
Qed.

(** C6 (amended). For a pair that gives an entry: when the body block has
    no title element, the title is empty; when it has one, the flattened
    text is its text nodes, each trimmed, the empty ones dropped, joined by
    single spaces (whitespace inside a text node stays as it is); where
    that text starts with the label [Title:], the title is the rest of it,
    trimmed and normalized, and where the label does not occur in it, the
    title is the text, trimmed and normalized. *)
Theorem C6_title_of_entry (isdecimal : N -> bool) (dt dd : node) (e : Entry) :
  entry_of_pair isdecimal dt dd = Some e ->
  (select_one is_list_title dd = None -> title e = [])
  /\ (forall t_el,
         select_one is_list_title dd = Some t_el ->
         let text := get_text (py " ") true t_el in
         text = join (py " ") (List.filter nonempty (map strip (strings t_el)))
         /\ (forall rest, text = py "Title:" ++ rest ->
                          title e = normalize_tex_like (strip rest))
         /\ (contains (py "Title:") text = false ->
             title e = normalize_tex_like (strip text))).
Proof.
  intros He.
  apply entry_of_pair_Some in He as (a & href & Ha & Hg & Hsw & Hs & Hu & Ht & Hab & Hc).
  rewrite Ht. unfold extract_title. split.
  - by intros ->.
  - intros t_el ->. cbn zeta. split_and!.
    + unfold get_text. by rewrite all_strings_strip.
    + intros rest ->. by rewrite replace_first_prefix.
    + intros H. by rewrite replace_first_absent.
Qed.

Lemma sample_entry_parsed :
  entry_of_pair ascii_digit sample_dt sample_dd = Some sample_entry.
Proof. vm_compute. reflexivity. Qed.

Lemma C6_title_of_entry_witness :
  (select_one is_list_title sample_dd = None -> title sample_entry = [])
  /\ (forall t_el,
         select_one is_list_title sample_dd = Some t_el ->
         let text := get_text (py " ") true t_el in
         text = join (py " ") (List.filter nonempty (map strip (strings t_el)))
         /\ (forall rest, text = py "Title:" ++ rest ->
                          title sample_entry = normalize_tex_like (strip rest))
         /\ (contains (py "Title:") text = false ->
             title sample_entry = normalize_tex_like (strip text))).
Proof.
  apply (C6_title_of_entry ascii_digit sample_dt sample_dd sample_entry).
  vm_compute. reflexivity.
Defined.

Lemma parse_sample_pair (isdecimal : N -> bool) :
  holds_ascii_digits isdecimal ->
  exists e, entry_of_pair isdecimal sample_dt sample_dd = Some e
            /\ id e = py "2401.12345v2"
            /\ title e = py "Dust  lanes".
Proof.
  intros Hd. vm_compute. rewrite !Hd by reflexivity. vm_compute.
  eexists. split_and!; reflexivity.
Qed.

(** C6 as stated fails: the text node [Title: Dust  lanes] has two spaces
    inside, which the title of the entry keeps. *)
Lemma C6_inner_whitespace_kept :
  ~ exists isdecimal,
      holds_ascii_digits isdecimal /\ title_is_as_specified isdecimal.
Proof.
  intros (isdecimal & Hd & H).
  destruct (parse_sample_pair isdecimal Hd) as (e & He & _ & Ht).
  specialize (H _ _ _ He). rewrite Ht in H. vm_compute in H. discriminate H.
Qed.

Example title_as_specified_sample :
  title_as_specified sample_dd = py "Dust lanes"
  /\ extract_title sample_dd = py "Dust  lanes".
Proof. split; vm_compute; reflexivity. Qed.

(** The label inside a title that does not start with it is removed as
    well, where the abstract keeps its label unless it leads. *)
Example inner_label_removed :
  extract_title (body_block (py "On the Title: of a paper") [])
  = py "On the  of a paper".
Proof. vm_compute. reflexivity. Qed.

(** ** The parser: subject codes *)

Lemma code_match_Some (s tok : str) :
  code_match s = Some tok ->
  tok <> [] /\ Forall (fun x => is_code_char x = true) tok
  /\ exists post, s = LPAREN :: tok ++ RPAREN :: post.
Proof.
  unfold code_match. destruct s as [|c t]; [done|].
  destruct (c =? LPAREN)%N eqn:Ec; [|done]. apply N.eqb_eq in Ec as ->.
  destruct (span_while_spec is_code_char t) as (Hall & rest & Ht & _).
  destruct (span_while is_code_char t) as [|x tok'] eqn:Es; [done|].
  destruct (startswith [RPAREN] (drop (length (x :: tok')) t)) eqn:Er; [|done].
  intros [= <-]. split_and!; [done | done |].
  rewrite Ht, drop_app_length in Er. apply startswith_iff in Er as [post ->].
  exists post. by rewrite Ht.
Qed.

Lemma span_while_app (f : N -> bool) (tok rest : str) :
  Forall (fun x => f x = true) tok ->
  match rest with c :: _ => f c = false | [] => True end ->
  span_while f (tok ++ rest) = tok.
Proof.
  induction 1 as [|x tok Hx _ IH]; intros Hr; simpl.
  - destruct rest as [|c rest]; [done | simpl; by rewrite Hr].
  - by rewrite Hx, IH.
Qed.

Lemma code_match_token (c post : str) :
  c <> [] -> Forall (fun x => is_code_char x = true) c ->
  code_match (LPAREN :: c ++ RPAREN :: post) = Some c.
Proof.
  intros Hne Hall. unfold code_match. rewrite N.eqb_refl.
  rewrite (span_while_app is_code_char c (RPAREN :: post) Hall eq_refl).
  destruct c as [|x c]; [done|]. by rewrite drop_app_length.
Qed.

Lemma findall_codes_from_sound (skip : nat) (s c : str) :
  c ∈ findall_codes_from skip s -> parenthesized_code c s.
Proof.
  revert skip; induction s as [|a s IH]; intros skip H.
  - by apply elem_of_nil in H.
  - assert (Hext : parenthesized_code c s -> parenthesized_code c (a :: s)).
    { intros (H1 & H2 & pre & post & ->). split_and!; [done..|]. by exists (a :: pre), post. }
    cbn [findall_codes_from] in H. destruct skip as [|k]; [|by eapply Hext, IH].
    destruct (code_match (a :: s)) as [tok|] eqn:E; [|by eapply Hext, IH].
    apply elem_of_cons in H as [->|H]; [|by eapply Hext, IH].
    apply code_match_Some in E as (H1 & H2 & post & E).
    split_and!; [done..|]. exists [], post. by rewrite E.
Qed.

(** A token and its closing parenthesis end before the next opening
    parenthesis. *)
Lemma token_before_paren (tok pre rest tail : str) :
  Forall (fun x => is_code_char x = true) tok ->
  pre ++ LPAREN :: tail = tok ++ RPAREN :: rest ->
  S (length tok) <= length pre /\ take (S (length tok)) pre = tok ++ [RPAREN].
Proof.
  intros H; revert pre; induction H as [|x tok Hx H IH]; intros pre E.
  - destruct pre as [|b pre]; simpl in E; [discriminate|].
    injection E as -> _. simpl. split; [lia|]. by rewrite take_0.
  - destruct pre as [|b pre]; simpl in E.
    + injection E as <- _. by vm_compute in Hx.
    + injection E as -> E. destruct (IH pre E) as [Hl Ht].
      split; [simpl; lia|]. simpl in *. by rewrite Ht.
Qed.

(** The scan cannot step over an opening parenthesis: what is left of a
    match holds none. *)
Lemma findall_codes_from_complete (skip : nat) (pre c post : str) :
  c <> [] -> Forall (fun x => is_code_char x = true) c ->
  skip <= length pre ->
  Forall (fun x => x <> LPAREN) (take skip pre) ->
  c ∈ findall_codes_from skip (pre ++ [LPAREN] ++ c ++ [RPAREN] ++ post).
Proof.
  intros Hne Hall. revert skip; induction pre as [|a pre IH]; intros skip Hs Hskip.
  - simpl in Hs. replace skip with 0 by lia.
    change ([] ++ [LPAREN] ++ c ++ [RPAREN] ++ post)
      with (LPAREN :: c ++ RPAREN :: post).
    cbn [findall_codes_from]. rewrite (code_match_token c post Hne Hall). left.
  - change ((a :: pre) ++ [LPAREN] ++ c ++ [RPAREN] ++ post)
      with (a :: (pre ++ [LPAREN] ++ c ++ [RPAREN] ++ post)).
    cbn [findall_codes_from]. destruct skip as [|k].
    + destruct (code_match _) as [tok|] eqn:E.
      * right. apply code_match_Some in E as (H1 & H2 & rest & E).
        injection E as -> E.
        destruct (token_before_paren tok pre rest (c ++ [RPAREN] ++ post) H2 E)
          as [Hl Ht].
        apply IH; [done|]. rewrite Ht. apply Forall_app. split; [|by repeat constructor].
        eapply Forall_impl; [exact H2|]. intros x Hx ->. by vm_compute in Hx.
      * apply IH; [lia | by rewrite take_0].
    + apply IH; [simpl in Hs; lia|].
      change (take (S k) (a :: pre)) with (a :: take k pre) in Hskip.
      by apply Forall_cons_1 in Hskip as [_ ?].
Qed.

Lemma findall_codes_spec (s c : str) :
  c ∈ findall_codes s <-> parenthesized_code c s.
Proof.
  split; [apply findall_codes_from_sound|].
  intros (Hne & Hall & pre & post & ->).
  apply findall_codes_from_complete; [done | done | lia | by rewrite take_0].
Qed.

Lemma elements_list_to_set_dups (l : list str) :
  elements (list_to_set (C := gset str) l) ≡ₚ remove_dups l.
Proof.
  apply NoDup_Permutation; [apply NoDup_elements | apply NoDup_remove_dups |].
  intros x. by rewrite elem_of_elements, elem_of_list_to_set, elem_of_remove_dups.
Qed.

(** C8. For a pair that gives an entry: when the body block has no
    subjects element, [codes] is empty; when it has one, the flattened text
    is the text nodes of that element, each trimmed, the empty ones
    dropped, joined by single spaces, and [codes] is the set of the results
    of [findall] on that text: its members are exactly the non-empty texts
    over [[A-Za-z0-9.\-]] that stand in parentheses in it, each of the
    tokens found is listed once, however often it occurs, and the set is
    empty when the text holds no such token. *)
Theorem C8_codes_of_entry (isdecimal : N -> bool) (dt dd : node) (e : Entry) :
  entry_of_pair isdecimal dt dd = Some e ->
  (select_one is_list_subjects dd = None -> codes e = ∅)
  /\ (forall subj_el,
         select_one is_list_subjects dd = Some subj_el ->
         let subj_txt := get_text (py " ") true subj_el in
         subj_txt = join (py " ") (List.filter nonempty (map strip (strings subj_el)))
         /\ codes e = list_to_set (findall_codes subj_txt)
         /\ (forall c, c ∈ codes e <-> parenthesized_code c subj_txt)
         /\ elements (codes e) ≡ₚ remove_dups (findall_codes subj_txt)
         /\ ((forall c, ~ parenthesized_code c subj_txt) -> codes e = ∅)).
Proof.
  intros He.
  apply entry_of_pair_Some in He as (a & href & Ha & Hg & Hsw & Hs & Hu & Ht & Hab & Hc).
  rewrite Hc. unfold extract_codes, subjects_text. split.
  - by intros ->.
  - intros subj_el ->. cbn zeta.
    assert (Hm : forall c,
               c ∈ (list_to_set (findall_codes (get_text (py " ") true subj_el)) : gset str)
               <-> parenthesized_code c (get_text (py " ") true subj_el)).
    { intros c. rewrite elem_of_list_to_set. apply findall_codes_spec. }
    split_and!.
    + unfold get_text. by rewrite all_strings_strip.
    + done.
    + done.
    + apply elements_list_to_set_dups.
    + intros Hno. apply set_eq. intros c. rewrite Hm. split; [|set_solver].
      intros H. by destruct (Hno c).
Qed.

Lemma C8_codes_of_entry_witness :
  (select_one is_list_subjects sample_dd = None -> codes sample_entry = ∅)
  /\ (forall subj_el,
         select_one is_list_subjects sample_dd = Some subj_el ->
         let subj_txt := get_text (py " ") true subj_el in
         subj_txt = join (py " ") (List.filter nonempty (map strip (strings subj_el)))
         /\ codes sample_entry = list_to_set (findall_codes subj_txt)
         /\ (forall c, c ∈ codes sample_entry <-> parenthesized_code c subj_txt)
         /\ elements (codes sample_entry) ≡ₚ remove_dups (findall_codes subj_txt)
         /\ ((forall c, ~ parenthesized_code c subj_txt) -> codes sample_entry = ∅)).
Proof.
  apply (C8_codes_of_entry ascii_digit sample_dt sample_dd sample_entry).
  vm_compute. reflexivity.
Defined.

Example subjects_example :
  findall_codes
    (py "Subjects: Astrophysics of Galaxies (astro-ph.GA); Instrumentation (astro-ph.IM)")
  = [py "astro-ph.GA"; py "astro-ph.IM"].
Proof. vm_compute. reflexivity. Qed.

Example subjects_sample :
  findall_codes (subjects_text sample_dd)
  = [py "astro-ph.GA"; py "astro-ph.IM"; py "astro-ph.GA"]
  /\ elements (codes sample_entry) = [py "astro-ph.IM"; py "astro-ph.GA"].
Proof. split; vm_compute; reflexivity. Qed.

Example subjects_without_codes :
  findall_codes (py "Subjects: none (not yet) ()") = [].
Proof. vm_compute. reflexivity. Qed.

(** ** The buckets of [main] *)

Lemma bucket_filter (entries pri_ga pri_im main_rest : list Entry) :
  bucket entries pri_ga pri_im main_rest
  = (pri_ga ++ filter (fun e => py "astro-ph.GA" ∈ codes e) entries,
     pri_im ++ filter (fun e => (py "astro-ph.GA" ∉ codes e)
                                /\ (py "astro-ph.IM" ∈ codes e)) entries,
     main_rest ++ filter (fun e => (py "astro-ph.GA" ∉ codes e)
                                   /\ (py "astro-ph.IM" ∉ codes e)) entries).
Proof.
  revert pri_ga pri_im main_rest.
  induction entries as [|e es IH]; intros pri_ga pri_im main_rest.
  - simpl. by rewrite !app_nil_r.
  - cbn [bucket]. rewrite !filter_cons.
    repeat case_bool_decide; rewrite IH;
      repeat case_decide; rewrite <- ?app_assoc; simpl; try done; tauto.
Qed.

(** C10. The three buckets are the entries with [astro-ph.GA], those
    without it and with [astro-ph.IM], and those with neither, each in the
    order of the parsed list; every entry meets exactly one of the three
    conditions, so an entry with both codes is in the GA bucket only, and
    the buckets together are the parsed list rearranged. *)
Theorem C10_buckets_partition (entries : list Entry) :
  let pri_ga := filter (fun e => py "astro-ph.GA" ∈ codes e) entries in
  let pri_im := filter (fun e => (py "astro-ph.GA" ∉ codes e)
                                 /\ (py "astro-ph.IM" ∈ codes e)) entries in
  let main_rest := filter (fun e => (py "astro-ph.GA" ∉ codes e)
                                    /\ (py "astro-ph.IM" ∉ codes e)) entries in
  classify entries = (pri_ga, pri_im, main_rest)
  /\ pri_ga `sublist_of` entries
  /\ pri_im `sublist_of` entries
  /\ main_rest `sublist_of` entries
  /\ pri_ga ++ pri_im ++ main_rest ≡ₚ entries
  /\ Forall (fun e => ((e ∈ pri_ga) /\ (e ∉ pri_im) /\ (e ∉ main_rest))
                      \/ ((e ∉ pri_ga) /\ (e ∈ pri_im) /\ (e ∉ main_rest))
                      \/ ((e ∉ pri_ga) /\ (e ∉ pri_im) /\ (e ∈ main_rest)))
       entries.
Proof.
  intros pri_ga pri_im main_rest. split_and!.
  - unfold classify. by rewrite bucket_filter.
  - apply sublist_filter.
  - apply sublist_filter.
  - apply sublist_filter.
  - unfold pri_ga, pri_im, main_rest. clear.
    induction entries as [|e es IH]; [done|]. rewrite !filter_cons.
    repeat case_decide; try tauto; simpl.
    + by rewrite IH.
    + rewrite <- Permutation_middle. by rewrite IH.
    + rewrite (app_assoc _ _ (e :: _)), <- Permutation_middle, <- app_assoc.
      by rewrite IH.
  - apply Forall_forall. intros e He. unfold pri_ga, pri_im, main_rest.
    rewrite !list_elem_of_filter.
    destruct (decide (py "astro-ph.GA" ∈ codes e));
      destruct (decide (py "astro-ph.IM" ∈ codes e)); tauto.
Qed.

(** ** Further properties of the parser *)

Lemma forallb_of_Forall (f : N -> bool) (l : str) :
  Forall (fun c => f c = true) l -> forallb f l = true.
Proof. induction 1 as [|x l Hx _ IH]; simpl; [done | by rewrite Hx, IH]. Qed.

Lemma version_suffix_whole (isdecimal : N -> bool) (v : str) :
  (v = [] \/ exists ds, v = py "v" ++ ds /\ ds <> []
                        /\ Forall (fun c => isdecimal c = true) ds) ->
  version_suffix isdecimal v = v.
Proof.
  intros [->|(ds & -> & Hne & Hall)]; [done|].
  change (py "v" ++ ds) with (118%N :: ds). unfold version_suffix.
  rewrite N.eqb_refl.
  pose proof (span_while_app isdecimal ds [] Hall I) as Hs.
  rewrite app_nil_r in Hs. rewrite Hs. by destruct ds.
Qed.

(** X1. An identifier of the grammar that stands alone after [/abs/] in a
    link target is extracted whole, version suffix included. *)
Theorem X1_identifier_extracted (isdecimal : N -> bool) (x : str) :
  arxiv_id isdecimal x ->
  search_id isdecimal (py "/abs/" ++ x) = Some x.
Proof.
  intros (d4 & d5 & v & -> & H4 & Hd4 & H5 & Hd5 & Hv).
  destruct d4 as [|c1 [|c2 [|c3 [|c4 [|? ?]]]]]; try discriminate H4.
  destruct d5 as [|c6 [|c7 [|c8 [|c9 [|c10 [|? ?]]]]]]; try discriminate H5.
  apply forallb_of_Forall in Hd4, Hd5.
  assert (E : id_match isdecimal
                (py "/abs/" ++ [c1; c2; c3; c4] ++ py "." ++ [c6; c7; c8; c9; c10] ++ v)
              = Some ([c1; c2; c3; c4] ++ py "." ++ [c6; c7; c8; c9; c10] ++ v)).
  { unfold id_match. rewrite startswith_app.
    change (drop 5 (py "/abs/" ++ ?r)) with r.
    cbn [app firstn skipn length Nat.eqb andb py map list_ascii_of_string].
    rewrite take_0, drop_0. cbn [length Nat.eqb andb].
    rewrite Hd4, Hd5. cbn [andb].
    change (startswith _ _) with ((46 =? 46)%N && true). cbn [N.eqb Pos.eqb andb].
    by rewrite (version_suffix_whole isdecimal v Hv). }
  clear Hd4 Hd5.
  destruct (py "/abs/" ++ [c1; c2; c3; c4] ++ py "." ++ [c6; c7; c8; c9; c10] ++ v)
    as [|c s] eqn:Es; cbn [search_id]; by rewrite E.
Qed.

Lemma X1_identifier_extracted_witness :
  search_id ascii_digit (py "/abs/" ++ py "2401.12345v2") = Some (py "2401.12345v2").
Proof.
  apply (X1_identifier_extracted ascii_digit (py "2401.12345v2")).
  exists (py "2401"), (py "12345"), (py "v2").
  split_and!; [reflexivity | reflexivity | repeat constructor | reflexivity
              | repeat constructor |].
  right. exists (py "2"). split_and!; [reflexivity | done | repeat constructor].
Defined.

(** X2. For a pair that gives an entry: without the abstract paragraph the
    abstract is empty; with it, the abstract is the flattened text of the
    paragraph, without the label [Abstract:] and trimmed when the text
    starts with the label, as it is otherwise, and then normalized. *)
Theorem X2_abstract_of_entry (isdecimal : N -> bool) (dt dd : node) (e : Entry) :
  entry_of_pair isdecimal dt dd = Some e ->
  (select_one is_p_mathjax dd = None -> abstract e = [])
  /\ (forall p,
         select_one is_p_mathjax dd = Some p ->
         let text := get_text (py " ") true p in
         (forall rest, text = py "Abstract:" ++ rest ->
                       abstract e = normalize_tex_like (strip rest))
         /\ (startswith (py "Abstract:") text = false ->
             abstract e = normalize_tex_like text)).
Proof.
  intros He.
  apply entry_of_pair_Some in He as (a & href & Ha & Hg & Hsw & Hs & Hu & Ht & Hab & Hc).
  rewrite Hab. unfold extract_abstract. split.
  - by intros ->.
  - intros p ->. cbn zeta. split.
    + intros rest ->. by rewrite startswith_app, drop_app_length.
    + by intros ->.
Qed.

Lemma X2_abstract_of_entry_witness :
  (select_one is_p_mathjax sample_dd = None -> abstract sample_entry = [])
  /\ (forall p,
         select_one is_p_mathjax sample_dd = Some p ->
         let text := get_text (py " ") true p in
         (forall rest, text = py "Abstract:" ++ rest ->
                       abstract sample_entry = normalize_tex_like (strip rest))
         /\ (startswith (py "Abstract:") text = false ->
             abstract sample_entry = normalize_tex_like text)).
Proof.
  apply (X2_abstract_of_entry ascii_digit sample_dt sample_dd sample_entry).
  vm_compute. reflexivity.
Defined.

(** ** The renderer: escaping *)

Lemma replace_char (c : N) (new s : str) :
  replace [c] new s = flat_map (fun x => if (x =? c)%N then new else [x]) s.
Proof.
  unfold replace. induction s as [|x s IH]; [done|].
  cbn [replace_from flat_map startswith length pred].
  rewrite andb_true_r, (N.eqb_sym c x).
  destruct (x =? c)%N; simpl; by rewrite IH.
Qed.

Lemma flat_map_flat_map {A B C : Type} (f : A -> list B) (g : B -> list C) (l : list A) :
  flat_map g (flat_map f l) = flat_map (fun x => flat_map g (f x)) l.
Proof.
  induction l as [|x l IH]; [done|]. simpl. by rewrite flat_map_app, IH.
Qed.

Lemma escape_html_chars (s : str) : escape_html s = flat_map escape_char s.
Proof.
  unfold escape_html.
  change DQUOTE with [34%N]. change (py ">") with [62%N].
  change (py "<") with [60%N]. change (py "&") with [38%N].
  rewrite !replace_char, !flat_map_flat_map.
  apply flat_map_ext. intros x. unfold escape_char.
  repeat (cbn [flat_map app]; rewrite ?app_nil_r;
          match goal with
          | |- context [N.eqb x ?k] => destruct (N.eqb_spec x k) as [->|?]
          end; [reflexivity|]).
  cbn [flat_map app]. by rewrite ?app_nil_r.
Qed.

(** X3. [escape_html] works character by character: [&], [<], [>] and the
    double quote become [&amp;], [&lt;], [&gt;] and [&quot;], every other
    character stays (an ampersand that a later replacement writes is not
    escaped again), so the escape of a concatenation is the concatenation
    of the escapes. *)
Theorem X3_escape_html_charwise (a b : str) :
  escape_html a = flat_map escape_char a
  /\ escape_html (a ++ b) = escape_html a ++ escape_html b.
Proof.
  split; [apply escape_html_chars|].
  by rewrite !escape_html_chars, flat_map_app.
Qed.

Lemma escape_char_cases (x : N) :
  (x = 38%N /\ escape_char x = py "&amp;")
  \/ (x = 60%N /\ escape_char x = py "&lt;")
  \/ (x = 62%N /\ escape_char x = py "&gt;")
  \/ (x = 34%N /\ escape_char x = py "&quot;")
  \/ (x <> 38%N /\ x <> 60%N /\ x <> 62%N /\ x <> 34%N /\ escape_char x = [x]).
Proof.
  unfold escape_char.
  destruct (N.eqb_spec x 38) as [->|H1]; [by left|].
  destruct (N.eqb_spec x 60) as [->|H2]; [by right; left|].
  destruct (N.eqb_spec x 62) as [->|H3]; [by right; right; left|].
  destruct (N.eqb_spec x 34) as [->|H4]; [by right; right; right; left|].
  by right; right; right; right.
Qed.

Lemma app_eq_split (img rest pre post : str) (c : N) :
  img ++ rest = pre ++ c :: post ->
  (exists pre', pre = img ++ pre' /\ rest = pre' ++ c :: post)
  \/ (exists p2, img = pre ++ c :: p2 /\ post = p2 ++ rest).
Proof.
  revert pre; induction img as [|a img IH]; intros pre E.
  - left. by exists pre.
  - destruct pre as [|b pre]; simpl in E; injection E as -> E.
    + right. by exists img.
    + destruct (IH pre E) as [(pre' & -> & ->)|(p2 & -> & ->)].
      * left. by exists pre'.
      * right. by exists p2.
Qed.

Lemma amp_at_head (img pre p2 : str) :
  img = pre ++ 38%N :: p2 ->
  forallb (fun c => negb (c =? 38)%N) (tail img) = true ->
  pre = [].
Proof.
  intros -> H. destruct pre as [|a pre]; [done|]. simpl in H.
  rewrite forallb_app in H. simpl in H. by rewrite andb_false_r in H.
Qed.

(** X4. The output of [escape_html] holds no [<], no [>] and no double
    quote, and each of its ampersands starts one of the four entities. *)
Theorem X4_escape_html_output (s : str) :
  Forall (fun c => c <> 60%N /\ c <> 62%N /\ c <> 34%N) (escape_html s)
  /\ (forall pre post,
         escape_html s = pre ++ py "&" ++ post ->
         startswith (py "amp;") post = true
         \/ startswith (py "lt;") post = true
         \/ startswith (py "gt;") post = true
         \/ startswith (py "quot;") post = true).
Proof.
  rewrite escape_html_chars. split.
  - induction s as [|x s IH]; [constructor|]. cbn [flat_map].
    apply Forall_app. split; [|done].
    destruct (escape_char_cases x)
      as [[-> ->]|[[-> ->]|[[-> ->]|[[-> ->]|(H1 & H2 & H3 & H4 & ->)]]]];
      repeat constructor; done.
  - induction s as [|x s IH]; intros pre post E; cbn [flat_map] in E.
    + by destruct pre.
    + change (py "&" ++ post) with (38%N :: post) in *.
      apply app_eq_split in E as [(pre' & -> & E)|(p2 & E & ->)];
        [by eapply IH|].
      destruct (escape_char_cases x)
        as [[-> Hx]|[[-> Hx]|[[-> Hx]|[[-> Hx]|(H1 & H2 & H3 & H4 & Hx)]]]];
        rewrite Hx in E; clear Hx.
      * pose proof (amp_at_head _ _ _ E eq_refl) as ->.
        injection E as <-. left. apply startswith_app.
      * pose proof (amp_at_head _ _ _ E eq_refl) as ->.
        injection E as <-. right; left. apply startswith_app.
      * pose proof (amp_at_head _ _ _ E eq_refl) as ->.
        injection E as <-. right; right; left. apply startswith_app.
      * pose proof (amp_at_head _ _ _ E eq_refl) as ->.
        injection E as <-. right; right; right. apply startswith_app.
      * destruct pre as [|? pre]; [injection E as E1 E2; congruence|].
        injection E as _ E. by destruct pre.
Qed.

Lemma escape_char_images (x : N) :
  (x = 38%N /\ escape_char x = [38; 97; 109; 112; 59]%N)
  \/ (x = 60%N /\ escape_char x = [38; 108; 116; 59]%N)
  \/ (x = 62%N /\ escape_char x = [38; 103; 116; 59]%N)
  \/ (x = 34%N /\ escape_char x = [38; 113; 117; 111; 116; 59]%N)
  \/ (x <> 38%N /\ escape_char x = [x]).
Proof.
  destruct (escape_char_cases x)
    as [[-> ->]|[[-> ->]|[[-> ->]|[[-> ->]|(H1 & H2 & H3 & H4 & ->)]]]]; auto 10.
Qed.

(** The images of the characters are a prefix code. *)
Lemma escape_char_prefix_free (x y : N) (a b : str) :
  escape_char x ++ a = escape_char y ++ b -> x = y /\ a = b.
Proof.
  destruct (escape_char_images x) as [[Hx ->]|[[Hx ->]|[[Hx ->]|[[Hx ->]|[Hx ->]]]]];
    destruct (escape_char_images y) as [[Hy ->]|[[Hy ->]|[[Hy ->]|[[Hy ->]|[Hy ->]]]]];
    simpl; intros E; split; congruence.
Qed.

(** X5. [escape_html] is injective: two texts with the same escape are the
    same text. *)
Theorem X5_escape_html_injective (a b : str) :
  escape_html a = escape_html b -> a = b.
Proof.
  rewrite !escape_html_chars. revert b; induction a as [|x a IH]; intros b E.
  - destruct b as [|y b]; [done|]. cbn [flat_map] in E.
    destruct (escape_char_images y) as [[_ Hy]|[[_ Hy]|[[_ Hy]|[[_ Hy]|[_ Hy]]]]];
      rewrite Hy in E; discriminate E.
  - destruct b as [|y b]; cbn [flat_map] in E.
    + destruct (escape_char_images x) as [[_ Hx]|[[_ Hx]|[[_ Hx]|[[_ Hx]|[_ Hx]]]]];
        rewrite Hx in E; discriminate E.
    + apply escape_char_prefix_free in E as [-> E]. f_equal. by apply IH.
Qed.

Lemma X5_escape_html_injective_witness :
  py "a<b" = py "a<b".
Proof.
  apply (X5_escape_html_injective (py "a<b") (py "a<b")). reflexivity.
Defined.

(** ** The renderer: ordinals *)

Lemma ordinal_suffixes_lookup (k : Z) :
  ordinal_suffixes !! k
  = if decide (k = 1%Z) then Some (py "st")
    else if decide (k = 2%Z) then Some (py "nd")
    else if decide (k = 3%Z) then Some (py "rd")
    else None.
Proof.
  unfold ordinal_suffixes. repeat case_decide; by simplify_map_eq.
Qed.

(** X6. [ordinal_day d] is the decimal text of [d] followed by the English
    ordinal suffix: [st], [nd] or [rd] when [d] ends in 1, 2 or 3 and not
    in 11, 12 or 13, and [th] in every other case. *)
Theorem X6_ordinal_day_suffix (d : Z) :
  ordinal_day d
  = str_of_int d
    ++ (if decide (d mod 10 = 1 /\ d mod 100 <> 11)%Z then py "st"
        else if decide (d mod 10 = 2 /\ d mod 100 <> 12)%Z then py "nd"
        else if decide (d mod 10 = 3 /\ d mod 100 <> 13)%Z then py "rd"
        else py "th").
Proof.
  unfold ordinal_day. f_equal. rewrite ordinal_suffixes_lookup.
  assert (Hk : ((d mod 100) mod 10 = d mod 10)%Z).
  { apply Z.mod_mod_divide. by exists 10%Z. }
  pose proof (Z.mod_pos_bound d 100 eq_refl) as Hm.
  pose proof (Z.mod_pos_bound (d mod 100) 10 eq_refl) as Hk'.
  revert Hk Hm Hk'. generalize (d mod 100)%Z (d mod 10)%Z. intros m k Hk Hm Hk'.
  destruct ((10 <=? m) && (m <=? 20))%Z eqn:E.
  - apply andb_true_iff in E as [E1 E2].
    apply Z.leb_le in E1, E2.
    repeat case_decide; try done; exfalso; Z.div_mod_to_equations; lia.
  - apply andb_false_iff in E as [E|E]; apply Z.leb_gt in E;
      repeat case_decide; try done; exfalso; Z.div_mod_to_equations; lia.
Qed.

Example ordinal_days :
  map ordinal_day [1; 2; 3; 4; 11; 12; 13; 21; 22; 23; 30; 31]%Z
  = map py ["1st"; "2nd"; "3rd"; "4th"; "11th"; "12th"; "13th"; "21st";
            "22nd"; "23rd"; "30th"; "31st"]%string.
Proof. vm_compute. reflexivity. Qed.

(** ** The renderer: sections and pages *)

Lemma for_items_spec (items : list Entry) (parts : list str) (n : Z) :
  for_items items parts n
  = (parts ++ imap (fun k it => article (n + Z.of_nat k) it) items,
     (n + Z.of_nat (length items))%Z).
Proof.
  revert parts n; induction items as [|it items IH]; intros parts n.
  - simpl. f_equal; [by rewrite app_nil_r | lia].
  - cbn [for_items]. rewrite IH. cbn [imap length]. rewrite <- app_assoc.
    f_equal; [|lia]. f_equal. cbn [app]. f_equal; [f_equal; lia|].
    apply imap_ext. intros k x _. simpl. f_equal. lia.
Qed.

Lemma html_section_next (heading : str) (items : list Entry) (start_index : Z) :
  snd (html_section heading items start_index)
  = (start_index + Z.of_nat (length items))%Z.
Proof. unfold html_section. by rewrite for_items_spec. Qed.

(** X7. [html_section] writes the heading, escaped, and then one article
    for each item, in order, under the consecutive numbers that start at
    [start_index]; the number it returns is the one after the last. *)
Theorem X7_html_section_numbers (heading : str) (items : list Entry) (start_index : Z) :
  html_section heading items start_index
  = (py "<h2>" ++ escape_html heading ++ py "</h2>"
       ++ concat (imap (fun k it => article (start_index + Z.of_nat k) it) items),
     (start_index + Z.of_nat (length items))%Z).
Proof.
  unfold html_section. rewrite for_items_spec. f_equal.
  cbn [app concat]. by rewrite <- !app_assoc.
Qed.

(** X8. The loop over the sections of [html_page] skips the sections
    without items and numbers the items through: each section that is
    shown starts at the number after the items of the shown sections before
    it, and the counter ends after the items of all sections. *)
Theorem X8_sections_numbered_through
    (sections : list (str * list Entry)) (body : list str) (i : Z) :
  let shown := List.filter (fun s => truthy (snd s)) sections in
  for_sections sections body i
  = (body
       ++ imap (fun k s =>
                  fst (html_section (fst s) (snd s)
                         (i + Z.of_nat (length (concat (map snd (take k shown)))))))
            shown,
     (i + Z.of_nat (length (concat (map snd sections))))%Z).
Proof.
  cbn zeta. revert body i.
  induction sections as [|[subheader items] sections IH]; intros body i.
  - simpl. f_equal; [by rewrite app_nil_r | lia].
  - cbn [for_sections List.filter snd fst]. destruct items as [|it items].
    + cbn [truthy]. rewrite IH. by cbn [map snd concat app].
    + cbn [truthy].
      pose proof (html_section_next subheader (it :: items) i) as Hn.
      destruct (html_section subheader (it :: items) i) as [sec_html i'] eqn:Es.
      cbn [snd] in Hn. subst i'. rewrite IH.
      cbn [imap firstn map concat snd fst app length]. rewrite <- app_assoc.
      cbn [app]. f_equal.
      * do 2 f_equal.
        -- replace (i + Z.of_nat 0)%Z with i by lia. by rewrite Es.
        -- apply imap_ext. intros k [h its] _. cbn [firstn map concat snd fst compose].
           do 2 f_equal. rewrite !length_app. cbn [length]. lia.
      * rewrite !length_app. cbn [length]. lia.
Qed.

Lemma for_sections_shown (sections : list (str * list Entry)) (body : list str) (i : Z) :
  for_sections (List.filter (fun s => truthy (snd s)) sections) body i
  = for_sections sections body i.
Proof.
  revert body i; induction sections as [|[subheader items] sections IH];
    intros body i; [done|].
  cbn [List.filter snd]. destruct items as [|it items]; cbn [truthy for_sections].
  - apply IH.
  - destruct (html_section subheader (it :: items) i) as [sec_html i']. apply IH.
Qed.

Lemma total_shown (sections : list (str * list Entry)) (acc : Z) :
  fold_left (fun acc s => (acc + Z.of_nat (length (snd s)))%Z)
    (List.filter (fun s => truthy (snd s)) sections) acc
  = fold_left (fun acc s => (acc + Z.of_nat (length (snd s)))%Z) sections acc.
Proof.
  revert acc; induction sections as [|[subheader items] sections IH]; intros acc;
    [done|].
  cbn [List.filter snd]. destruct items as [|it items]; cbn [truthy fold_left snd].
  - rewrite IH. f_equal. simpl. lia.
  - apply IH.
Qed.

Lemma filter_filter_same {A : Type} (f : A -> bool) (l : list A) :
  List.filter f (List.filter f l) = List.filter f l.
Proof.
  induction l as [|x l IH]; [done|]. simpl.
  destruct (f x) eqn:E; simpl; rewrite ?E, IH; done.
Qed.

(** X9. A page does not depend on its sections without items: dropping
    them from the list gives the same page. *)
Theorem X9_html_page_empty_sections
    (page_title date_str top_subtitle : str) (sections : list (str * list Entry)) :
  html_page page_title date_str top_subtitle
    (List.filter (fun s => truthy (snd s)) sections)
  = html_page page_title date_str top_subtitle sections.
Proof.
  unfold html_page. by rewrite total_shown, filter_filter_same, for_sections_shown.
Qed.

(** ** The normalizer: further properties *)

Lemma span_while_length (f : N -> bool) (s : str) :
  length (span_while f s) <= length s.
Proof. induction s as [|c s IH]; simpl; [lia|]. destruct (f c); simpl; lia. Qed.

Lemma pat_match_length (pat : pattern) (s : str) (n : nat) :
  pat_match pat s = Some n -> n <= length s.
Proof.
  destruct pat as [p|p]; simpl; destruct (startswith p s) eqn:E; try done;
    intros [= <-]; apply startswith_length in E; [done|].
  pose proof (span_while_length isspace (drop (length p) s)) as H.
  rewrite length_drop in H. lia.
Qed.

Lemma sub_from_length (pat : pattern) (repl s : str) (skip : nat) :
  (forall t n, pat_match pat t = Some n -> 1 <= n /\ length repl <= n) ->
  skip <= length s ->
  length (sub_from pat repl skip s) + skip <= length s.
Proof.
  intros Hp. revert skip; induction s as [|c s IH]; intros skip Hs.
  - simpl in *. lia.
  - cbn [sub_from]. destruct skip as [|k].
    + destruct (pat_match pat (c :: s)) as [n|] eqn:E.
      * destruct (Hp _ _ E) as [H1 H2]. apply pat_match_length in E. simpl in E.
        rewrite length_app. specialize (IH (pred n)). simpl. lia.
      * specialize (IH 0). simpl. lia.
    + specialize (IH k). simpl in *. lia.
Qed.

Lemma tex_replacements_short (pat : pattern) (repl : str) :
  (pat, repl) ∈ _tex_replacements -> length repl <= 1.
Proof.
  intros Hin. unfold _tex_replacements in Hin.
  repeat (apply elem_of_cons in Hin as [[= -> ->]|Hin]);
    [ .. | by apply elem_of_nil in Hin ]; simpl; lia.
Qed.

Lemma fold_sub_length (rules : list (pattern * str)) (t : str) :
  rules ⊆ _tex_replacements ->
  length (fold_left (fun chunk pr => sub (fst pr) (snd pr) chunk) rules t)
  <= length t.
Proof.
  revert t; induction rules as [|[pat repl] rules IH]; intros t Hsub; [done|].
  cbn [fold_left fst snd].
  assert (Hin : (pat, repl) ∈ _tex_replacements) by (apply Hsub; left).
  etrans; [apply IH; intros x Hx; apply Hsub; by right|].
  pose proof (sub_from_length pat repl t 0) as H. unfold sub.
  assert (length (sub_from pat repl 0 t) + 0 <= length t); [|lia].
  apply H; [|lia]. intros u n Hm. split.
  - by eapply tex_patterns_nonempty.
  - pose proof (tex_replacements_short _ _ Hin).
    pose proof (tex_patterns_nonempty _ _ _ _ Hin Hm). lia.
Qed.

Lemma apply_replacements_length (t : str) :
  length (apply_replacements t) <= length t.
Proof. by apply fold_sub_length. Qed.

(** X10. The normalizer never lengthens a text: each rule writes at most
    one character for the one or more that it reads. *)
Theorem X10_normalize_not_longer (s : str) :
  length (normalize_tex_like s) <= length s.
Proof.
  rewrite normalize_spans.
  pose proof (Scan_partition _ _ _ (finditer_Scan s)) as Hp.
  rewrite drop_0 in Hp. fold (spans s) in Hp. rewrite <- Hp at 2. clear Hp.
  generalize (spans s). intros l. induction l as [|sp l IH]; [done|].
  cbn [map concat]. rewrite !length_app.
  destruct sp as [t|t]; cbn [emit raw]; [|lia].
  pose proof (apply_replacements_length t). lia.
Qed.

Lemma Scan_bounds (s : str) (pos : nat) (ms : list (nat * nat)) :
  Scan s pos ms ->
  Forall (fun m => pos <= fst m /\ fst m + 2 <= snd m /\ snd m <= length s) ms.
Proof.
  induction 1 as [pos Hall | pos st n ms Hle Hgap Hm Hrest IH]; [constructor|].
  apply math_match_Some in Hm as [_ [Hn1 Hn2]]. rewrite length_drop in Hn2.
  constructor; [simpl; lia|].
  eapply Forall_impl; [exact IH|]. intros [a b]. simpl. lia.
Qed.

Lemma Scan_ordered (s : str) (pos : nat) (ms : list (nat * nat)) (i j : nat)
    (m1 m2 : nat * nat) :
  Scan s pos ms -> i < j -> ms !! i = Some m1 -> ms !! j = Some m2 ->
  snd m1 <= fst m2.
Proof.
  intros H. revert i j.
  induction H as [pos Hall | pos st n ms Hle Hgap Hm Hrest IH]; intros i j Hij H1 H2.
  - done.
  - destruct j as [|j]; [lia|]. simpl in H2. destruct i as [|i].
    + simpl in H1. injection H1 as <-. simpl.
      apply Scan_bounds in Hrest. rewrite Forall_forall in Hrest.
      apply (Hrest m2). by eapply list_elem_of_lookup_2.
    + simpl in H1. apply (IH i j); [lia | done | done].
Qed.

(** X11. The matches of [_MATH_RE.finditer] are at least two characters
    long, lie within the text, and follow one another without overlap. *)
Theorem X11_finditer_matches_disjoint (s : str) :
  Forall (fun m => fst m + 2 <= snd m /\ snd m <= length s) (finditer s)
  /\ (forall i j m1 m2,
         i < j -> finditer s !! i = Some m1 -> finditer s !! j = Some m2 ->
         snd m1 <= fst m2).
Proof.
  pose proof (finditer_Scan s) as H. split.
  - apply Scan_bounds in H. eapply Forall_impl; [exact H|]. intros [a b]. simpl. lia.
  - intros i j m1 m2. apply (Scan_ordered s 0 (finditer s) i j m1 m2 H).
Qed.

Lemma sub_from_absent_char (pat : pattern) (repl s : str) (skip : nat) (c : N) :
  c ∉ repl -> c ∉ s -> c ∉ sub_from pat repl skip s.
Proof.
  intros Hr. revert skip; induction s as [|x s IH]; intros skip Hs; [done|].
  apply not_elem_of_cons in Hs as [Hx Hs]. cbn [sub_from].
  destruct skip as [|k]; [|by apply IH].
  destruct (pat_match pat (x :: s)).
  - rewrite elem_of_app. intros [?|?]; [done | by eapply IH].
  - apply not_elem_of_cons. split; [done | by apply IH].
Qed.

Lemma sub_tilde (s : str) : 126%N ∉ sub (Literal (py "~")) [NBSP] s.
Proof.
  unfold sub. induction s as [|x s IH]; [by apply not_elem_of_nil|].
  cbn [sub_from pat_match startswith py map list_ascii_of_string length pred].
  change (N_of_ascii "~") with 126%N. rewrite andb_true_r.
  destruct (N.eqb_spec 126 x) as [<-|Hx].
  - cbn [app]. apply not_elem_of_cons. split; [done | exact IH].
  - apply not_elem_of_cons. split; [done | exact IH].
Qed.

Lemma apply_replacements_no_tilde (t : str) : 126%N ∉ apply_replacements t.
Proof.
  rewrite apply_replacements_table. unfold table_rewrite.
  unfold rule_ampersand, rule_italic_correction, rule_hyphenation, rule_tilde, sub.
  do 3 (apply sub_from_absent_char;
          [ let H := fresh in
            intros H; simpl in H;
            repeat (apply elem_of_cons in H as [H|H]; [discriminate H|]);
            by apply elem_of_nil in H |]).
  apply sub_tilde.
Qed.

(** X12. No tilde is left in plain text: in the output of the normalizer,
    the rewriting of every plain span is without tilde (a tilde of the
    output lies in a protected region). *)
Theorem X12_no_tilde_left (s : str) :
  normalize_tex_like s = concat (map (emit apply_replacements) (spans s))
  /\ Forall (fun sp => match sp with
                       | Plain _ => 126%N ∉ emit apply_replacements sp
                       | Math _ => True
                       end) (spans s).
Proof.
  split; [apply normalize_spans|].
  apply Forall_forall. intros [t|t] _; [apply apply_replacements_no_tilde | done].
Qed.

Example tilde_kept_in_math :
  normalize_tex_like (py "a~b $x~y$") = py "a" ++ [NBSP] ++ py "b $x~y$".
Proof. vm_compute. reflexivity. Qed.

(** ** The parser and the renderer together *)

(** X13. An entry of the parser is never shown under an empty link text:
    where its title is empty, the renderer shows its identifier, which is
    not empty. *)
Theorem X13_link_text_nonempty (isdecimal : N -> bool) (soup : node)
    (entries : list Entry) (e : Entry) :
  parse_list isdecimal soup = Ok entries ->
  e ∈ entries ->
  shown_title e <> [] /\ escape_html (shown_title e) <> [].
Proof.
  intros Hp He. rewrite parse_list_spec in Hp. injection Hp as <-.
  apply list_elem_of_omap in He as ([dt dd] & _ & He). simpl in He.
  apply entry_of_pair_Some in He as (a & href & Ha & Hg & Hsw & Hs & Hrest).
  apply search_id_Some in Hs as [Hid _]. apply arxiv_id_nonempty in Hid.
  assert (H : shown_title e <> []).
  { unfold shown_title. by destruct (title e). }
  split; [done|]. rewrite escape_html_chars.
  destruct (shown_title e) as [|c t]; [done|]. cbn [flat_map].
  destruct (escape_char_images c) as [[_ ->]|[[_ ->]|[[_ ->]|[[_ ->]|[_ ->]]]]]; done.
Qed.

Lemma X13_link_text_nonempty_witness :
  shown_title sample_entry <> [] /\ escape_html (shown_title sample_entry) <> [].
Proof.
  apply (X13_link_text_nonempty ascii_digit
           (listing [sample_dt; sample_dd]) [sample_entry] sample_entry).
  - vm_compute. reflexivity.
  - left.
Defined.

(** ** The program *)

Lemma human_names :
  dict_getitem HUMAN_NAMES (py "astro-ph.GA") = Ok (py "Astrophysics of Galaxies")
  /\ dict_getitem HUMAN_NAMES (py "astro-ph.IM") = Ok (py "Instrumentation and Methods")
  /\ HUMAN_NAMES !! py "physics.hist-ph" = Some (py "History & Philosophy of Physics")
  /\ HUMAN_NAMES !! py "physics.ed-ph" = Some (py "Physics Education")
  /\ HUMAN_NAMES !! py "physics.pop-ph" = Some (py "Popular Physics").
Proof. split_and!; vm_compute; reflexivity. Qed.

Section ProgramFacts.

Variable isdecimal : N -> bool.
Variable env_error : Type.
Variable http_get : str -> env_error + str.
Variable BeautifulSoup : str -> node.
Variable write_file : str -> str -> option env_error.
Variables stamp month_year : str.
Variable day : Z.

(** One page fetched and parsed: the parser adds no failure. *)
Lemma fetch_and_parse {B : Type} (category : str)
    (k : list Entry -> io env_error B) (log : list action) :
  io_bind (fetch_list_html env_error http_get category)
    (fun html =>
       io_bind (io_py (parse_list isdecimal (BeautifulSoup html))) k) log
  = match http_get (list_url category) with
    | inr text =>
        k (fetched_entries isdecimal BeautifulSoup text)
          (log ++ [Get (list_url category)])
    | inl x => (log ++ [Get (list_url category)], Failed (EnvError x))
    end.
Proof.
  unfold io_bind, fetch_list_html.
  destruct (http_get (list_url category)) as [x|text]; [done|].
  by rewrite parse_list_spec.
Qed.

(** One turn of the loop over the categories. *)
Lemma for_cats_cons {B : Type} (cat : str) (rest : list str)
    (groups : list (str * list Entry))
    (k : list (str * list Entry) -> io env_error B) (log : list action) :
  io_bind (for_cats isdecimal env_error http_get BeautifulSoup (cat :: rest) groups)
    k log
  = match http_get (list_url cat) with
    | inr text =>
        io_bind
          (for_cats isdecimal env_error http_get BeautifulSoup rest
             (groups ++ [(default cat (HUMAN_NAMES !! cat),
                          fetched_entries isdecimal BeautifulSoup text)]))
          k (log ++ [Get (list_url cat)])
    | inl x => (log ++ [Get (list_url cat)], Failed (EnvError x))
    end.
Proof.
  cbn [for_cats]. unfold io_bind at 1 2 3, fetch_list_html.
  destruct (http_get (list_url cat)) as [x|text]; [done|].
  by rewrite parse_list_spec.
Qed.

(** X14. When the request for one of the four listing pages fails, [main]
    fails with the exception of the first request that fails, after the
    requests up to that one, in the order astro-ph, physics.hist-ph,
    physics.ed-ph, physics.pop-ph, and it writes no file. *)
Theorem X14_failed_fetch_writes_nothing (k : nat) (url : str) (x : env_error) :
  listing_urls !! k = Some url ->
  http_get url = inl x ->
  (forall j u, j < k -> listing_urls !! j = Some u ->
               exists text, http_get u = inr text) ->
  main isdecimal env_error http_get BeautifulSoup write_file stamp month_year day []
  = (map Get (take (S k) listing_urls), Failed (EnvError x)).
Proof.
  intros Hk Hx Hok. unfold main. rewrite fetch_and_parse.
  destruct k as [|k].
  { change (Some (list_url (py "astro-ph")) = Some url) in Hk.
    injection Hk as <-. by rewrite Hx. }
  destruct (Hok 0 (list_url (py "astro-ph")) ltac:(lia) eq_refl) as [t0 ->].
  destruct (bucket _ [] [] []) as [[pri_ga pri_im] main_rest].
  unfold INTEREST_CATS. rewrite for_cats_cons.
  destruct k as [|k].
  { change (Some (list_url (py "physics.hist-ph")) = Some url) in Hk.
    injection Hk as <-. by rewrite Hx. }
  destruct (Hok 1 (list_url (py "physics.hist-ph")) ltac:(lia) eq_refl) as [t1 ->].
  rewrite for_cats_cons.
  destruct k as [|k].
  { change (Some (list_url (py "physics.ed-ph")) = Some url) in Hk.
    injection Hk as <-. by rewrite Hx. }
  destruct (Hok 2 (list_url (py "physics.ed-ph")) ltac:(lia) eq_refl) as [t2 ->].
  rewrite for_cats_cons.
  destruct k as [|k]; [|done].
  change (Some (list_url (py "physics.pop-ph")) = Some url) in Hk.
  injection Hk as <-. by rewrite Hx.
Qed.

(** X15. When the four requests succeed and the three writes raise
    nothing, [main] ends normally after the four requests and the three
    writes, in this order: the Priority page with the entries with
    [astro-ph.GA] and then those without it and with [astro-ph.IM], the
    Main page with the other entries of astro-ph, and the Interest page
    with the entries of the three physics categories under their names;
    the files are named by the date stamp. *)
Theorem X15_main_writes_three_pages (t0 t1 t2 t3 : str) :
  http_get (list_url (py "astro-ph")) = inr t0 ->
  http_get (list_url (py "physics.hist-ph")) = inr t1 ->
  http_get (list_url (py "physics.ed-ph")) = inr t2 ->
  http_get (list_url (py "physics.pop-ph")) = inr t3 ->
  (forall name content, write_file name content = None) ->
  let entries := fetched_entries isdecimal BeautifulSoup in
  let date_long := nice_date day month_year in
  main isdecimal env_error http_get BeautifulSoup write_file stamp month_year day []
  = (map Get listing_urls
       ++ [ WriteFile (stamp ++ py "_Priority.html")
              (html_page (py "Priority") date_long []
                 [ (py "Astrophysics of Galaxies",
                    filter (fun e => py "astro-ph.GA" ∈ codes e) (entries t0));
                   (py "Instrumentation and Methods",
                    filter (fun e => (py "astro-ph.GA" ∉ codes e)
                                     /\ (py "astro-ph.IM" ∈ codes e))
                      (entries t0)) ]);
            WriteFile (stamp ++ py "_Main.html")
              (html_page (py "Main") date_long []
                 [ (py "Astrophysics (other categories)",
                    filter (fun e => (py "astro-ph.GA" ∉ codes e)
                                     /\ (py "astro-ph.IM" ∉ codes e))
                      (entries t0)) ]);
            WriteFile (stamp ++ py "_Interest.html")
              (html_page (py "Interest") date_long []
                 [ (py "History & Philosophy of Physics", entries t1);
                   (py "Physics Education", entries t2);
                   (py "Popular Physics", entries t3) ]) ],
     Done tt).
Proof.
  intros H0 H1 H2 H3 Hw entries date_long.
  destruct human_names as (Nga & Nim & Nhist & Ned & Npop).
  unfold main. rewrite fetch_and_parse, H0. rewrite bucket_filter.
  unfold INTEREST_CATS.
  rewrite for_cats_cons, H1, for_cats_cons, H2, for_cats_cons, H3.
  cbn [for_cats]. unfold io_bind, io_ret, write.
  rewrite Nga, Nim, Nhist, Ned, Npop. cbn [io_py default app].
  rewrite !Hw. cbn [app]. reflexivity.
Qed.

End ProgramFacts.

Lemma X14_failed_fetch_writes_nothing_witness :
  main ascii_digit unit failing_get sample_soup sample_write
    (py "20261103") (py "November 2026") 3 []
  = (map Get (take 1 listing_urls), Failed (EnvError tt)).
Proof.
  apply (X14_failed_fetch_writes_nothing ascii_digit unit failing_get sample_soup
           sample_write (py "20261103") (py "November 2026") 3
           0 (list_url (py "astro-ph")) tt).
  - reflexivity.
  - reflexivity.
  - intros j u Hj. lia.
Defined.

Lemma X15_main_writes_three_pages_witness :
  let entries := fetched_entries ascii_digit sample_soup in
  let date_long := nice_date 3 (py "November 2026") in
  main ascii_digit unit sample_get sample_soup sample_write
    (py "20261103") (py "November 2026") 3 []
  = (map Get listing_urls
       ++ [ WriteFile (py "20261103" ++ py "_Priority.html")
              (html_page (py "Priority") date_long []
                 [ (py "Astrophysics of Galaxies",
                    filter (fun e => py "astro-ph.GA" ∈ codes e)
                      (entries (py "<html>")));
                   (py "Instrumentation and Methods",
                    filter (fun e => (py "astro-ph.GA" ∉ codes e)
                                     /\ (py "astro-ph.IM" ∈ codes e))
                      (entries (py "<html>"))) ]);
            WriteFile (py "20261103" ++ py "_Main.html")
              (html_page (py "Main") date_long []
                 [ (py "Astrophysics (other categories)",
                    filter (fun e => (py "astro-ph.GA" ∉ codes e)
                                     /\ (py "astro-ph.IM" ∉ codes e))
                      (entries (py "<html>"))) ]);
            WriteFile (py "20261103" ++ py "_Interest.html")
              (html_page (py "Interest") date_long []
                 [ (py "History & Philosophy of Physics", entries (py "<html>"));
                   (py "Physics Education", entries (py "<html>"));
                   (py "Popular Physics", entries (py "<html>")) ]) ],
     Done tt).
Proof.
  apply (X15_main_writes_three_pages ascii_digit unit sample_get sample_soup
           sample_write (py "20261103") (py "November 2026") 3
           (py "<html>") (py "<html>") (py "<html>") (py "<html>"));
    reflexivity.
Defined.
